(** * RoboticsApplicationManager: the lifecycle manager, in Rocq

    A shallow embedding of [src/manager/manager/manager.py] (class [Manager])
    and of [src/manager/libs/applications/compatibility/server.py]
    (class [Server]), together with the properties of the lifecycle machine,
    of the dispatcher and of the code instrumentation step. *)

From Stdlib Require Import List String Ascii NArith Bool Arith Lia.
Import ListNotations.
Open Scope list_scope.

(** ** Text

    A Python [str] is a sequence of Unicode code points.  A code point is a
    number; a text is a list of code points.  Literals of the source are
    ASCII, and are written as Rocq strings. *)

Definition char := N.
Definition text := list char.

Definition txt (s : string) : text :=
  map N_of_ascii (list_ascii_of_string s).

Definition nl : text := [10%N].

Fixpoint text_eqb (a b : text) : bool :=
  match a, b with
  | [], [] => true
  | x :: a', y :: b' => N.eqb x y && text_eqb a' b'
  | _, _ => false
  end.

Fixpoint is_prefix (p s : text) : bool :=
  match p, s with
  | [], _ => true
  | x :: p', y :: s' => N.eqb x y && is_prefix p' s'
  | _ :: _, [] => false
  end.

(** [needle in haystack] on strings. *)
Fixpoint contains (needle s : text) : bool :=
  is_prefix needle s ||
  match s with
  | [] => false
  | _ :: s' => contains needle s'
  end.

(** [s.replace(old, new)] for a non-empty [old]: the occurrences of [old]
    are replaced from left to right, without overlap.  [skip] counts the
    characters of an occurrence that remain to be dropped. *)
Fixpoint replace_from (old new : text) (skip : nat) (s : text) : text :=
  match s with
  | [] => []
  | c :: s' =>
      match skip with
      | S k => replace_from old new k s'
      | O =>
          if is_prefix old s
          then new ++ replace_from old new (List.length old - 1) s'
          else c :: replace_from old new 0 s'
      end
  end.

Definition replace (old new s : text) : text := replace_from old new 0 s.

(** ** Regular expressions, as [re.search] runs them

    The fragment of Python's [re] syntax that [add_frequency_control] uses:
    a negated one-character class, literals, the greedy [\s*], sequence and
    ordered alternation.  [m] is the backtracking matcher: it threads the
    position in the text and a continuation for what follows. *)
Module Re.

Inductive re : Type :=
| NotChr (c : char)
| Lit (l : text)
| StarSpace
| Seq (r1 r2 : re)
| Alt (r1 r2 : re).

(** [\s] on a [str] pattern: the code points for which
    [str.isspace] holds. *)
Definition is_space (c : char) : bool :=
  ((9 <=? c) && (c <=? 13) || (28 <=? c) && (c <=? 32)
   || (c =? 133) || (c =? 160) || (c =? 5760)
   || (8192 <=? c) && (c <=? 8202)
   || (c =? 8232) || (c =? 8233) || (c =? 8239) || (c =? 8287)
   || (c =? 12288))%N.

Definition cont := text -> nat -> option nat.

Fixpoint lit (l s : text) (pos : nat) (k : cont) : option nat :=
  match l with
  | [] => k s pos
  | c :: l' =>
      match s with
      | d :: s' => if N.eqb c d then lit l' s' (S pos) k else None
      | [] => None
      end
  end.

(** Greedy: take a space when there is one, give it back when the rest
    fails. *)
Fixpoint star_space (s : text) (pos : nat) (k : cont) : option nat :=
  match s with
  | c :: s' =>
      if is_space c
      then match star_space s' (S pos) k with
           | Some e => Some e
           | None => k s pos
           end
      else k s pos
  | [] => k [] pos
  end.

Fixpoint m (r : re) (s : text) (pos : nat) (k : cont) : option nat :=
  match r with
  | NotChr c =>
      match s with
      | d :: s' => if N.eqb d c then None else k s' (S pos)
      | [] => None
      end
  | Lit l => lit l s pos k
  | StarSpace => star_space s pos k
  | Seq r1 r2 => m r1 s pos (fun s' p' => m r2 s' p' k)
  | Alt r1 r2 =>
      match m r1 s pos k with
      | Some e => Some e
      | None => m r2 s pos k
      end
  end.

(** The end of the match that starts at [pos], if there is one. *)
Definition match_at (r : re) (s : text) (pos : nat) : option nat :=
  m r s pos (fun _ p => Some p).

(** [re.search]: the match at the leftmost position that has one, as
    [(start, end)]; [s] is the text from [pos] on. *)
Fixpoint search_from (r : re) (s : text) (pos : nat) : option (nat * nat) :=
  match match_at r s pos with
  | Some e => Some (pos, e)
  | None =>
      match s with
      | [] => None
      | _ :: s' => search_from r s' (S pos)
      end
  end.

Definition search (r : re) (s : text) : option (nat * nat) :=
  search_from r s 0.

(** The language of a pattern: the texts it matches in full. *)
Inductive Matches : re -> text -> Prop :=
| MNotChr c d : d <> c -> Matches (NotChr c) [d]
| MLit l : Matches (Lit l) l
| MStar w : Forall (fun c => is_space c = true) w -> Matches StarSpace w
| MSeq r1 r2 w1 w2 :
    Matches r1 w1 -> Matches r2 w2 -> Matches (Seq r1 r2) (w1 ++ w2)
| MAltL r1 r2 w : Matches r1 w -> Matches (Alt r1 r2) w
| MAltR r1 r2 w : Matches r2 w -> Matches (Alt r1 r2) w.

End Re.

(** ** Errors

    The exceptions the manager can see, by class; the text is [str(e)]. *)
Inductive exn : Type :=
| AttributeError (msg : text)
| KeyError (key : text)
| TypeError (msg : text)
| ValueError (msg : text)
| UnboundLocalError (name : text)
| MachineError (msg : text)
| OSError (msg : text)
| Exception (msg : text).

(** ** Code instrumentation: [Manager.add_frequency_control] *)

Definition frequency_control_code_imports : text :=
  nl ++ txt "import time" ++ nl
     ++ txt "from datetime import datetime" ++ nl
     ++ txt "ideal_cycle = 20" ++ nl.

Definition frequency_control_code_pre : text :=
  nl ++ txt "    start_time_internal_freq_control = datetime.now()" ++ nl
     ++ txt "            ".

Definition frequency_control_code_post : text :=
  nl ++ txt "    finish_time_internal_freq_control = datetime.now()" ++ nl
     ++ txt "    dt = finish_time_internal_freq_control - start_time_internal_freq_control" ++ nl
     ++ txt "    ms = (dt.days * 24 * 60 * 60 + dt.seconds) * 1000 + dt.microseconds / 1000.0" ++ nl
     ++ nl
     ++ txt "    if (ms < ideal_cycle):" ++ nl
     ++ txt "        time.sleep((ideal_cycle - ms) / 1000.0)" ++ nl.

Import Re.

Definition seqs (rs : list re) : re :=
  fold_right Seq (Lit []) rs.

Definition sp : char := 32%N.

(** The pattern of [re.search] in [add_frequency_control], alternative by
    alternative, in the order of the source. *)
Definition while_paren_true : re :=
  seqs [NotChr sp; Lit (txt "while"); StarSpace; Lit (txt "("); StarSpace;
        Lit (txt "True"); StarSpace; Lit (txt ")"); StarSpace; Lit (txt ":")].

Definition while_true : re :=
  seqs [NotChr sp; Lit (txt "while"); StarSpace; Lit (txt "True");
        StarSpace; Lit (txt ":")].

Definition while_one : re :=
  seqs [NotChr sp; Lit (txt "while"); StarSpace; Lit (txt "1");
        StarSpace; Lit (txt ":")].

Definition while_paren_one : re :=
  seqs [NotChr sp; Lit (txt "while"); StarSpace; Lit (txt "("); StarSpace;
        Lit (txt "1"); StarSpace; Lit (txt ")"); StarSpace; Lit (txt ":")].

Definition infinite_loop_re : re :=
  Alt while_paren_true (Alt while_true (Alt while_one while_paren_one)).

(** [re.search] gave [None], and [infinite_loop.end()] is evaluated. *)
Definition none_has_no_end : exn :=
  AttributeError (txt "'NoneType' object has no attribute 'end'").

Definition add_frequency_control (code : text) : exn + text :=
  let code := frequency_control_code_imports ++ code in
  match search infinite_loop_re code with
  | None => inl none_has_no_end
  | Some (_, e) =>
      let code := firstn e code ++ frequency_control_code_pre ++ skipn e code in
      inr (code ++ frequency_control_code_post)
  end.

(** ** Values of the wire

    The payload of a command is decoded JSON.  The manager reads [None],
    strings and objects with string keys. *)
#[warnings="-register-all"]
Inductive pyval : Type :=
| PNone
| PStr (s : text)
| PDict (d : list (text * pyval)).

(** [bool(v)]. *)
Definition truthy (v : pyval) : bool :=
  match v with
  | PNone => false
  | PStr [] => false
  | PDict [] => false
  | _ => true
  end.

Fixpoint lookup (k : text) (d : list (text * pyval)) : option pyval :=
  match d with
  | [] => None
  | (k', v) :: d' => if text_eqb k k' then Some v else lookup k d'
  end.

Definition quoted (k : text) : text := txt "'" ++ k ++ txt "'".

(** [v[k]] for a string key [k]. *)
Definition subscript (v : pyval) (k : text) : exn + pyval :=
  match v with
  | PDict d =>
      match lookup k d with
      | Some x => inr x
      | None => inl (KeyError k)
      end
  | PStr _ => inl (TypeError (txt "string indices must be integers"))
  | PNone => inl (TypeError (txt "'NoneType' object is not subscriptable"))
  end.

(** [k in v] for a string key [k]. *)
Definition py_in (k : text) (v : pyval) : exn + bool :=
  match v with
  | PDict d => inr (match lookup k d with Some _ => true | None => false end)
  | PStr s => inr (contains k s)
  | PNone => inl (TypeError (txt "argument of type 'NoneType' is not iterable"))
  end.

(** [v == s] for a string literal [s]. *)
Definition eq_str (v : pyval) (s : text) : bool :=
  match v with
  | PStr s' => text_eqb s' s
  | _ => false
  end.

(** [str(e)]. *)
Definition str_exn (e : exn) : text :=
  match e with
  | KeyError k => quoted k
  | UnboundLocalError n =>
      txt "cannot access local variable " ++ quoted n
        ++ txt " where it is not associated with a value"
  | AttributeError s | TypeError s | ValueError s
  | MachineError s | OSError s | Exception s => s
  end.

(** [isinstance(e, ValueError)], for [except ValueError]. *)
Definition is_ValueError (e : exn) : bool :=
  match e with
  | ValueError _ => true
  | _ => false
  end.

(** ** The lifecycle states and the session resources *)

Inductive State : Type :=
| idle
| connected
| world_ready
| visualization_ready
| application_running
| paused.

Definition State_eqb (a b : State) : bool :=
  match a, b with
  | idle, idle | connected, connected | world_ready, world_ready
  | visualization_ready, visualization_ready
  | application_running, application_running | paused, paused => true
  | _, _ => false
  end.

Definition state_name (s : State) : text :=
  match s with
  | idle => txt "idle"
  | connected => txt "connected"
  | world_ready => txt "world_ready"
  | visualization_ready => txt "visualization_ready"
  | application_running => txt "application_running"
  | paused => txt "paused"
  end.

(** [Manager.states], in the order of the source. *)
Definition states : list State :=
  [idle; connected; world_ready; visualization_ready; application_running;
   paused].

(** The handles the manager keeps: each one records what it was built
    from. *)
Record LauncherWorld : Type := { world_config : pyval }.
Record LauncherVisualization : Type := { visualization : pyval }.
Record Popen : Type := { args : list text }.
Record Server : Type := { port : N }.

(** The attributes of a [Manager] that its methods read and write.
    [ros_version] is held as [str(self.ros_version)], the form under which
    the manager tests it; [consumer], [queue] and [linter] are set once in
    [__init__] and never rebound, so they are not fields. *)
Record Manager : Type := {
  state : State;
  ros_version : text;
  world_launcher : option LauncherWorld;
  visualization_launcher : option LauncherVisualization;
  application_process : option Popen;
  gui_server : option Server
}.

(** [Manager.__init__]: the machine starts in ["idle"], every handle is
    [None]. *)
Definition init (ros : text) : Manager :=
  {| state := idle;
     ros_version := ros;
     world_launcher := None;
     visualization_launcher := None;
     application_process := None;
     gui_server := None |}.

Definition set_state (s : State) (m : Manager) : Manager :=
  {| state := s;
     ros_version := ros_version m;
     world_launcher := world_launcher m;
     visualization_launcher := visualization_launcher m;
     application_process := application_process m;
     gui_server := gui_server m |}.

Definition set_world_launcher (w : option LauncherWorld) (m : Manager) : Manager :=
  {| state := state m;
     ros_version := ros_version m;
     world_launcher := w;
     visualization_launcher := visualization_launcher m;
     application_process := application_process m;
     gui_server := gui_server m |}.

Definition set_visualization_launcher (v : option LauncherVisualization)
    (m : Manager) : Manager :=
  {| state := state m;
     ros_version := ros_version m;
     world_launcher := world_launcher m;
     visualization_launcher := v;
     application_process := application_process m;
     gui_server := gui_server m |}.

Definition set_application_process (p : option Popen) (m : Manager) : Manager :=
  {| state := state m;
     ros_version := ros_version m;
     world_launcher := world_launcher m;
     visualization_launcher := visualization_launcher m;
     application_process := p;
     gui_server := gui_server m |}.

Definition set_gui_server (g : option Server) (m : Manager) : Manager :=
  {| state := state m;
     ros_version := ros_version m;
     world_launcher := world_launcher m;
     visualization_launcher := visualization_launcher m;
     application_process := application_process m;
     gui_server := g |}.

(** ** Messages *)

(** An inbound command of the transport. *)
Record message : Type := {
  id : text;
  command : text;
  data : pyval
}.

(** What the manager hands to [consumer.send_message]. *)
Inductive out_msg : Type :=
| msg_state_changed (s : State)
| msg_update (d : pyval)
| msg_introspection (robotics_backend_version ros : text) (gpu_avaliable : bool)
| msg_response (mid : text) (body : text)
| msg_exception (mid : text) (body : text).

(** ** Calls to the collaborators

    Every call that leaves the manager, in the order it is made, is an
    event of the trace of a run. *)
Inductive call : Type :=
| consumer_send_message (msg : out_msg)
| consumer_stop
| log_error (msg : text)
| log_exception (msg : text)
| check_output_image_tag
| check_gpu_acceleration
| ConfigurationManager_validate (cfg_dict : pyval)
| fs_open (path mode : text)
| fs_write (path data : text)
| base64_b64decode (data : text)
| os_path_exists (path : text)
| os_makedirs (path : text)
| zip_extractall (archive dest : text)
| LauncherWorld_new (cfg : pyval)
| LauncherWorld_run (w : LauncherWorld)
| LauncherWorld_terminate (w : LauncherWorld)
| LauncherVisualization_new (kind : pyval)
| LauncherVisualization_run (v : LauncherVisualization)
| LauncherVisualization_terminate (v : LauncherVisualization)
| Server_new (p : N)
| Server_start (g : Server)
| Server_stop (g : Server)
| server_send_message (client : N) (d : pyval)
| os_listdir (path : text)
| os_path_isfile (path : text)
| linter_evaluate_code (code : text) (exercise_id : pyval)
    (py_lint_source : option text)
| shutil_copytree (src dst : text)
| subprocess_Popen (argv : list text)
| stop_process_and_children (p : Popen)
| psutil_suspend (p : Popen)
| psutil_resume (p : Popen)
| rosservice_call_service (service : text)
| subprocess_call (cmd : text)
| os_execl.

Definition trace := list call.

(** The collaborators, as the manager sees them: which calls raise and
    what the others return. *)
Record Env : Type := {
  raises : call -> option exn;
  validated : pyval -> pyval;
  decoded : text -> text;
  path_exists : text -> bool;
  path_isfile : text -> bool;
  listdir : text -> list text;
  lint : text -> pyval -> option text -> text;
  image_tag : text;
  gpu : bool;
  current_client : option N
}.

(** ** The monad of the manager's methods

    A method reads the collaborators, reads and writes the attributes of
    the manager and makes calls.  It returns, raises, or never comes back
    because [os.execl] replaced the process image. *)
Inductive result (A : Type) : Type :=
| Ret (a : A) (m : Manager) (tr : trace)
| Raise (e : exn) (m : Manager) (tr : trace)
| Exec (tr : trace).

Arguments Ret {A} a m tr.
Arguments Raise {A} e m tr.
Arguments Exec {A} tr.

Definition M (A : Type) : Type := Env -> Manager -> result A.

Definition ret {A} (a : A) : M A := fun _ m => Ret a m [].

Definition raise {A} (e : exn) : M A := fun _ m => Raise e m [].

(** The calls of [tr] came first. *)
Definition after {A} (tr : trace) (r : result A) : result A :=
  match r with
  | Ret a m tr' => Ret a m (tr ++ tr')
  | Raise e m tr' => Raise e m (tr ++ tr')
  | Exec tr' => Exec (tr ++ tr')
  end.

Definition bind {A B} (c : M A) (k : A -> M B) : M B :=
  fun env m =>
    match c env m with
    | Ret a m' tr => after tr (k a env m')
    | Raise e m' tr => Raise e m' tr
    | Exec tr => Exec tr
    end.

(** [try: c  except Exception as e: h e]; a handler that does not catch
    [e] raises it again. *)
Definition try_except {A} (c : M A) (h : exn -> M A) : M A :=
  fun env m =>
    match c env m with
    | Raise e m' tr => after tr (h e env m')
    | r => r
    end.

Definition get : M Manager := fun _ m => Ret m m [].
Definition modify (f : Manager -> Manager) : M unit := fun _ m => Ret tt (f m) [].
Definition ask : M Env := fun env m => Ret env m [].

(** A call that returns nothing of use. *)
Definition do (c : call) : M unit :=
  fun env m =>
    match raises env c with
    | Some e => Raise e m [c]
    | None => Ret tt m [c]
    end.

(** A call that returns [v] when it does not raise. *)
Definition do_ret {A} (c : call) (v : Env -> A) : M A :=
  fun env m =>
    match raises env c with
    | Some e => Raise e m [c]
    | None => Ret (v env) m [c]
    end.

(** A call that cannot fail: logging, and the transport's send. *)
Definition emit (c : call) : M unit := fun _ m => Ret tt m [c].

Definition lift {A} (x : exn + A) : M A :=
  match x with
  | inl e => raise e
  | inr a => ret a
  end.

Notation "x <- c ;; k" := (bind c (fun x => k))
  (at level 61, c at next level, right associativity).
Notation "c ;; k" := (bind c (fun _ => k))
  (at level 61, right associativity).

(** ** The methods of [Manager]

    [LogManager.logger.info], [.debug] and [print] change nothing and are
    left out; [.error] and [.exception] are calls of the trace. *)

Definition none_has_no (attr : string) : exn :=
  AttributeError (txt "'NoneType' object has no attribute " ++ quoted (txt attr)).

Definition has_no (attr : string) : exn :=
  AttributeError (txt "object has no attribute " ++ quoted (txt attr)).

(** [Manager.state_change]. *)
Definition state_change : M unit :=
  m <- get ;;
  emit (consumer_send_message (msg_state_changed (state m))).

(** [Manager.update]. *)
Definition update (d : pyval) : M unit :=
  emit (consumer_send_message (msg_update d)).

(** [Manager.on_connect]. *)
Definition on_connect (_ : pyval) : M unit :=
  tag <- do_ret check_output_image_tag image_tag ;;
  m <- get ;;
  g <- do_ret check_gpu_acceleration gpu ;;
  emit (consumer_send_message (msg_introspection tag (ros_version m) g)).

(** [s.partition(sep)[2]]. *)
Fixpoint after_first (sep s : text) : text :=
  match s with
  | [] => []
  | _ :: s' =>
      if is_prefix sep s then skipn (List.length sep) s else after_first sep s'
  end.

(** [if v.startswith("data:"): _, _, x = v.partition("base64,")]: the
    local [x] is bound only in the branch. *)
Definition data_url_body (v : pyval) : M (option text) :=
  match v with
  | PStr s =>
      if is_prefix (txt "data:") s
      then ret (Some (after_first (txt "base64,") s))
      else ret None
  | _ => raise (has_no "startswith")
  end.

(** [literal + v], for a string literal on the left. *)
Definition concat_str (l : text) (v : pyval) : M text :=
  match v with
  | PStr s => ret (l ++ s)
  | _ => raise (TypeError (txt "can only concatenate str to str"))
  end.

(** [with open(path, "wb") as result: result.write(base64.b64decode(x))]
    for a local [x] that may be unbound. *)
Definition write_decoded (path : text) (local : string) (x : option text) : M unit :=
  do (fs_open path (txt "wb")) ;;
  match x with
  | None => raise (UnboundLocalError (txt local))
  | Some z =>
      bytes <- do_ret (base64_b64decode z) (fun env => decoded env z) ;;
      do (fs_write path bytes)
  end.

(** [Manager.prepare_custom_universe]. *)
Definition prepare_custom_universe (cfg_dict : pyval) : M unit :=
  z <- lift (subscript cfg_dict (txt "zip")) ;;
  zip_file <- data_url_body z ;;
  name <- lift (subscript cfg_dict (txt "name")) ;;
  universe_ref <- concat_str (txt "/workspace/worlds/") name ;;
  let zip_destination := universe_ref ++ txt ".zip" in
  write_decoded zip_destination "zip_file" zip_file ;;
  let universe_folder := universe_ref ++ txt "/" in
  ex <- do_ret (os_path_exists universe_folder)
          (fun env => path_exists env universe_folder) ;;
  (if ex then ret tt else do (os_makedirs universe_folder)) ;;
  do (zip_extractall zip_destination (universe_folder ++ txt "/")).

(** [Manager.on_launch_world].  The local [cfg] is bound by the call to
    [validate]; the [try] block is cut at that point, so that an error
    caught later leaves [cfg] bound and one caught earlier leaves it
    unbound.  The handler of [except ValueError] is the same in both
    parts. *)
Definition validation_failed {A} (leave : A) (e : exn) : M A :=
  if is_ValueError e
  then emit (log_error (txt "Configuration validation failed: " ++ str_exn e)) ;;
       ret leave
  else raise e.

Definition on_launch_world (d : pyval) : M unit :=
  let cfg_dict := d in
  cfg <- try_except
           (cfg <- do_ret (ConfigurationManager_validate cfg_dict)
                     (fun env => validated env cfg_dict) ;;
            try_except
              (z <- lift (py_in (txt "zip") cfg_dict) ;;
               (if z then prepare_custom_universe cfg_dict else ret tt) ;;
               ret (Some cfg))
              (validation_failed (Some cfg)))
           (validation_failed None) ;;
  match cfg with
  | None => raise (UnboundLocalError (txt "cfg"))
  | Some c =>
      w <- do_ret (LauncherWorld_new c) (fun _ => {| world_config := c |}) ;;
      modify (set_world_launcher (Some w)) ;;
      do (LauncherWorld_run w)
  end.

(** [Manager.on_prepare_visualization]. *)
Definition on_prepare_visualization (d : pyval) : M unit :=
  let visualization_type := d in
  v <- do_ret (LauncherVisualization_new visualization_type)
         (fun _ => {| visualization := visualization_type |}) ;;
  modify (set_visualization_launcher (Some v)) ;;
  do (LauncherVisualization_run v) ;;
  if eq_str visualization_type (txt "gazebo_rae")
  then g <- do_ret (Server_new 2303) (fun _ => {| port := 2303 |}) ;;
       modify (set_gui_server (Some g)) ;;
       do (Server_start g)
  else ret tt.

(** [dev.isdigit()], on the ASCII names of [/dev/pts]. *)
Definition isdigit (s : text) : bool :=
  match s with
  | [] => false
  | _ => forallb (fun c => (48 <=? c) && (c <=? 57))%N s
  end.

Definition dev_pts_0 : text := txt "/dev/pts/0".

(** The loop of [find_docker_console]: a console is kept when an empty
    write to it goes through. *)
Fixpoint probe_consoles (pts_consoles : list text) : M (list text) :=
  match pts_consoles with
  | [] => ret []
  | console :: rest =>
      ok <- (if text_eqb console dev_pts_0
             then ret false
             else try_except
                    (do (fs_open console (txt "w")) ;;
                     do (fs_write console []) ;;
                     ret true)
                    (fun _ => ret false)) ;;
      consoles <- probe_consoles rest ;;
      ret (if ok then console :: consoles else consoles)
  end.

Definition find_docker_console : M (list text) :=
  devs <- do_ret (os_listdir (txt "/dev/pts/"))
            (fun env => listdir env (txt "/dev/pts/")) ;;
  probe_consoles (map (fun dev => txt "/dev/pts/" ++ dev) (filter isdigit devs)).

(** [for i in console_path: with open(i, 'w') as console:
    console.write(errors + "\n\n")]. *)
Fixpoint write_consoles (errors : text) (console_path : list text) : M unit :=
  match console_path with
  | [] => ret tt
  | i :: rest =>
      do (fs_open i (txt "w")) ;;
      do (fs_write i (errors ++ nl ++ nl)) ;;
      write_consoles errors rest
  end.

(** [try: if app_cfg["type"] == "bt-studio": ...  except Exception: pass],
    up to the test. *)
Definition is_bt_studio (app_cfg : pyval) : M bool :=
  t <- lift (subscript app_cfg (txt "type")) ;;
  ret (eq_str t (txt "bt-studio")).

(** The two substitutions on a [code] that has to be a string. *)
Definition backwards_compatible (code : pyval) : M text :=
  match code with
  | PStr c =>
      let c := replace (txt "from GUI import GUI") (txt "import GUI") c in
      ret (replace (txt "from HAL import HAL") (txt "import HAL") c)
  | _ => raise (has_no "replace")
  end.

(** [Manager.on_style_check_application]. *)
Definition on_style_check_application (d : pyval) : M unit :=
  let app_cfg := d in
  bt <- try_except (is_bt_studio app_cfg) (fun _ => ret false) ;;
  if bt then ret tt else
  exercise_id <- lift (subscript app_cfg (txt "exercise_id")) ;;
  code <- lift (subscript app_cfg (txt "code")) ;;
  code <- backwards_compatible code ;;
  let src := Some (txt "pylint_checker_style.py") in
  errors <- do_ret (linter_evaluate_code code exercise_id src)
              (fun env => lint env code exercise_id src) ;;
  let errors := if text_eqb errors [] then txt "No errors found" else errors in
  console_path <- find_docker_console ;;
  write_consoles errors console_path ;;
  raise (Exception errors).

(** [Manager.call_service]. *)
Definition call_service (service service_type : text) : M unit :=
  let command := txt "ros2 service call " ++ service ++ txt " " ++ service_type in
  do (subprocess_call command).

Definition is_noetic (m : Manager) : bool :=
  contains (txt "noetic") (ros_version m).

Definition std_srvs_Empty : text := txt "std_srvs/srv/Empty".

(** [Manager.pause_sim], [Manager.unpause_sim], [Manager.reset_sim]. *)
Definition pause_sim : M unit :=
  m <- get ;;
  if is_noetic m
  then do (rosservice_call_service (txt "/gazebo/pause_physics"))
  else call_service (txt "/pause_physics") std_srvs_Empty.

Definition unpause_sim : M unit :=
  m <- get ;;
  if is_noetic m
  then do (rosservice_call_service (txt "/gazebo/unpause_physics"))
  else call_service (txt "/unpause_physics") std_srvs_Empty.

Definition reset_sim : M unit :=
  m <- get ;;
  if is_noetic m
  then do (rosservice_call_service (txt "/gazebo/reset_world"))
  else call_service (txt "/reset_world") std_srvs_Empty.

(** [self.application_process = subprocess.Popen(argv, ...)]. *)
Definition spawn_application (argv : list text) : M unit :=
  p <- do_ret (subprocess_Popen argv) (fun _ => {| args := argv |}) ;;
  modify (set_application_process (Some p)).

(** [Manager.run_bt_studio_application]. *)
Definition run_bt_studio_application (d : pyval) : M unit :=
  c <- lift (subscript d (txt "code")) ;;
  code <- data_url_body c ;;
  write_decoded (txt "/workspace/code/app.zip") "code" code ;;
  do (zip_extractall (txt "/workspace/code/app.zip") (txt "/workspace/code")) ;;
  spawn_application [txt "python3"; txt "/workspace/code/execute_docker.py"] ;;
  unpause_sim.

Definition academy_py : text := txt "/workspace/code/academy.py".

(** [Manager.on_run_application].  The first [try] returns from the method
    when the packaged application was started, and falls through on any
    error, also one raised while starting it. *)
Definition on_run_application (d : pyval) : M unit :=
  let app_cfg := d in
  started <- try_except
               (bt <- is_bt_studio app_cfg ;;
                if bt
                then run_bt_studio_application app_cfg ;; ret true
                else ret false)
               (fun _ => ret false) ;;
  if started then ret tt else
  application_file_path <- lift (subscript app_cfg (txt "template")) ;;
  exercise_id <- lift (subscript app_cfg (txt "exercise_id")) ;;
  code <- lift (subscript app_cfg (txt "code")) ;;
  m <- get ;;
  application_folder <-
    match application_file_path with
    | PStr p =>
        ret (p ++ (if is_noetic m then txt "/ros1_noetic/" else txt "/ros2_humble/"))
    | _ => raise (TypeError (txt "unsupported operand type(s) for +"))
    end ;;
  isf <- do_ret (os_path_isfile (application_folder ++ txt "exercise.py"))
           (fun env => path_isfile env (application_folder ++ txt "exercise.py")) ;;
  let code_path :=
    if isf then txt "/workspace/code/exercise.py" else academy_py in
  code <- backwards_compatible code ;;
  errors <- do_ret (linter_evaluate_code code exercise_id None)
              (fun env => lint env code exercise_id None) ;;
  if text_eqb errors []
  then
    code <- lift (add_frequency_control code) ;;
    do (fs_open academy_py (txt "w")) ;;
    do (fs_write academy_py code) ;;
    do (shutil_copytree application_folder (txt "/workspace/code")) ;;
    spawn_application [txt "python3"; code_path] ;;
    unpause_sim
  else
    console_path <- find_docker_console ;;
    write_consoles errors console_path ;;
    raise (Exception errors).

(** [Manager.on_terminate_application]. *)
Definition on_terminate_application (_ : pyval) : M unit :=
  m <- get ;;
  match application_process m with
  | Some p =>
      try_except
        (do (stop_process_and_children p) ;;
         modify (set_application_process None) ;;
         pause_sim ;;
         reset_sim)
        (fun _ => emit (log_exception (txt "No application running")))
  | None => ret tt
  end.

(** [Manager.on_terminate_visualization]. *)
Definition on_terminate_visualization (_ : pyval) : M unit :=
  m <- get ;;
  match visualization_launcher m with
  | Some v => do (LauncherVisualization_terminate v)
  | None => raise (none_has_no "terminate")
  end ;;
  match gui_server m with
  | Some g => do (Server_stop g) ;; modify (set_gui_server None)
  | None => ret tt
  end.

(** [Manager.on_terminate_universe]. *)
Definition on_terminate_universe (_ : pyval) : M unit :=
  m <- get ;;
  match world_launcher m with
  | Some w => do (LauncherWorld_terminate w)
  | None => raise (none_has_no "terminate")
  end.

(** [os.execl(python, python, *sys.argv)] runs the interpreter that is
    running again: the process image is replaced and nothing follows. *)
Definition execl {A} : M A := fun _ _ => Exec [os_execl].

(** [try: c  except Exception: LogManager.logger.exception(msg)]. *)
Definition logged (msg : string) (c : M unit) : M unit :=
  try_except c (fun _ => emit (log_exception (txt msg))).

(** [Manager.on_disconnect]. *)
Definition on_disconnect (_ : pyval) : M unit :=
  logged "Exception stopping consumer" (do consumer_stop) ;;
  m <- get ;;
  match application_process m with
  | Some p =>
      logged "Exception stopping application process"
        (do (stop_process_and_children p) ;;
         modify (set_application_process None))
  | None => ret tt
  end ;;
  match visualization_launcher m with
  | Some v =>
      logged "Exception terminating visualization launcher"
        (do (LauncherVisualization_terminate v))
  | None => ret tt
  end ;;
  match world_launcher m with
  | Some w =>
      logged "Exception terminating world launcher"
        (do (LauncherWorld_terminate w))
  | None => ret tt
  end ;;
  execl.

(** [Manager.on_pause] and [Manager.on_resume]. *)
Definition on_pause (_ : pyval) : M unit :=
  m <- get ;;
  match application_process m with
  | Some p => do (psutil_suspend p) ;; pause_sim
  | None => raise (none_has_no "pid")
  end.

Definition on_resume (_ : pyval) : M unit :=
  m <- get ;;
  match application_process m with
  | Some p => do (psutil_resume p) ;; unpause_sim
  | None => raise (none_has_no "pid")
  end.

(** ** The machine

    [Manager.transitions] is the table of the source.  [Machine] is the
    part of the [transitions] library that [Manager.__init__] relies on:
    the table is read as [Machine.add_transition] reads it, and a trigger
    is run as [Event.trigger] and [Transition.execute] run it, with the
    defaults of [Machine(...)] that the manager keeps
    ([auto_transitions=True], [ignore_invalid_triggers=False], no queue)
    and [after_state_change=self.state_change]. *)
Module Machine.

Inductive src : Type :=
| src_str (s : text)
| src_list (l : list text).

Record transition : Type := {
  trigger : text;
  source : src;
  dest : option text;
  before : list text
}.

Definition wildcard_all : text := txt "*".
Definition wildcard_same : text := txt "=".

(** The states a transition is registered under. *)
Definition sources_of (t : transition) : list text :=
  match source t with
  | src_str s => if text_eqb s wildcard_all then map state_name states else [s]
  | src_list l => l
  end.

(** [auto_transitions]: [to_<state>] goes to [<state>] from anywhere. *)
Definition auto_transitions : list transition :=
  map (fun s => {| trigger := txt "to_" ++ state_name s;
                   source := src_str wildcard_all;
                   dest := Some (state_name s);
                   before := [] |}) states.

(** [self.states.get(name)]. *)
Definition get_state (name : text) : option State :=
  find (fun s => text_eqb (state_name s) name) states.

Section Run.

(** The table, and [getattr(model, name)] for the callbacks. *)
Variable table : list transition.
Variable resolve : text -> option (pyval -> M unit).

Definition events : list transition := auto_transitions ++ table.

Definition has_event (name : text) : bool :=
  existsb (fun t => text_eqb (trigger t) name) events.

(** [event.transitions[state.name]]. *)
Definition transitions_from (name : text) (s : State) : list transition :=
  filter (fun t => text_eqb (trigger t) name
                   && existsb (text_eqb (state_name s)) (sources_of t))
         events.

Fixpoint callbacks (names : list text) (d : pyval) : M unit :=
  match names with
  | [] => ret tt
  | n :: rest =>
      match resolve n with
      | Some f => f d ;; callbacks rest d
      | None => raise (AttributeError
                         (txt "Callable with name " ++ quoted n
                            ++ txt " could neither be retrieved from the passed model nor imported from a module."))
      end
  end.

(** [Transition._change_state]: the destination has to be a
    registered state; [=] stands for the state the trigger came
    from. *)
Definition change_state (from : State) (d : text) : M unit :=
  let d := if text_eqb d wildcard_same then state_name from else d in
  match get_state d with
  | Some s => modify (set_state s)
  | None => raise (ValueError (txt "State " ++ quoted d
                                 ++ txt " is not a registered state."))
  end.

(** [Transition.execute], without conditions: the callbacks of
    [before], the change of state unless the transition is internal,
    the callbacks of [after_state_change]. *)
Definition execute (t : transition) (from : State) (d : pyval) : M unit :=
  callbacks (before t) d ;;
  match dest t with
  | Some dst => change_state from dst
  | None => ret tt
  end ;;
  state_change.

(** [model.trigger(name, data=d)]. *)
Definition fire (name : text) (d : pyval) : M unit :=
  if has_event name
  then
    m <- get ;;
    match transitions_from name (state m) with
    | t :: _ => execute t (state m) d
    | [] => raise (MachineError
                     (txt "Can't trigger event " ++ name
                        ++ txt " from state " ++ state_name (state m)
                        ++ txt "!"))
    end
  else raise (AttributeError
                (txt "Do not know event named " ++ quoted name ++ txt ".")).

End Run.

End Machine.

Import Machine.

Definition row (t : string) (s : src) (d b : string) : transition :=
  {| trigger := txt t; source := s; dest := Some (txt d); before := [txt b] |}.

Definition from (s : string) : src := src_str (txt s).
Definition from_any (l : list string) : src := src_list (map txt l).

(** [Manager.transitions]. *)
Definition transitions : list transition :=
  [ row "connect" (from "idle") "connected" "on_connect";
    row "launch_world" (from "connected") "world_ready" "on_launch_world";
    row "prepare_visualization" (from "world_ready") "visualization_ready"
        "on_prepare_visualization";
    row "run_application" (from_any ["visualization_ready"; "paused"]%string)
        "application_running" "on_run_application";
    row "pause" (from "application_running") "paused" "on_pause";
    row "resume" (from "paused") "application_running" "on_resume";
    row "terminate_application"
        (from_any ["visualization_ready"; "application_running"; "paused"]%string)
        "visualization_ready" "on_terminate_application";
    row "terminate_visualization" (from "visualization_ready") "world_ready"
        "on_terminate_visualization";
    row "terminate_universe" (from "world_ready") "connected"
        "on_terminate_universe";
    row "disconnect" (from "*") "idle" "on_disconnect";
    row "style_check" (from "*") "*" "on_style_check_application" ].

Definition methods : list (string * (pyval -> M unit)) :=
  [ ("on_connect", on_connect);
    ("on_launch_world", on_launch_world);
    ("on_prepare_visualization", on_prepare_visualization);
    ("on_run_application", on_run_application);
    ("on_pause", on_pause);
    ("on_resume", on_resume);
    ("on_terminate_application", on_terminate_application);
    ("on_terminate_visualization", on_terminate_visualization);
    ("on_terminate_universe", on_terminate_universe);
    ("on_disconnect", on_disconnect);
    ("on_style_check_application", on_style_check_application) ]%string.

(** [getattr(self, name)] for the callbacks of the table. *)
Definition method (name : text) : option (pyval -> M unit) :=
  option_map snd (find (fun p => text_eqb (txt (fst p)) name) methods).

(** [self.trigger(name, data=d)]. *)
Definition trigger_ (name : text) (d : pyval) : M unit :=
  fire transitions method name d.

(** ** The relay and the dispatcher *)

(** [Server.send]: nothing is sent when no client is attached.  The
    attribute [current_client] belongs to the relay's thread; its value
    at the time of the call comes with the collaborators. *)
Definition Server_send (g : Server) (d : pyval) : M unit :=
  env <- ask ;;
  match current_client env with
  | Some client => do (server_send_message client d)
  | None => ret tt
  end.

(** [Manager.process_message]. *)
Definition process_message (msg : message) : M unit :=
  if text_eqb (command msg) (txt "gui")
  then
    m <- get ;;
    match gui_server m with
    | Some g => Server_send g (data msg)
    | None => raise (none_has_no "send")
    end
  else
    trigger_ (command msg) (if truthy (data msg) then data msg else PNone) ;;
    m <- get ;;
    emit (consumer_send_message
            (msg_response (id msg)
               (txt "Exercise state changed to " ++ state_name (state m)))).

(** The body of the loop of [Manager.start] for a message taken from the
    queue. *)
Definition handle (msg : message) : M unit :=
  try_except (process_message msg)
    (fun e =>
       emit (consumer_send_message (msg_exception (id msg) (str_exn e))) ;;
       emit (log_error (str_exn e))).

(** [Manager.start], on the messages that the queue delivers.  The
    handler of SIGINT, which runs between two iterations, is not part of
    this model. *)
Fixpoint start (queue : list message) : M unit :=
  match queue with
  | [] => ret tt
  | msg :: rest => handle msg ;; start rest
  end.

(** * Properties *)

(** ** The matcher against the language of a pattern *)

Lemma lit_eq (l rest : text) (pos : nat) (k : cont) :
  lit l (l ++ rest) pos k = k rest (pos + List.length l).
Proof.
  revert pos; induction l as [|c l IH]; intros pos; simpl.
  - now rewrite Nat.add_0_r.
  - rewrite N.eqb_refl, IH. f_equal. lia.
Qed.

Lemma lit_sound (l s : text) (pos : nat) (k : cont) (e : nat) :
  lit l s pos k = Some e ->
  exists rest, s = l ++ rest /\ k rest (pos + List.length l) = Some e.
Proof.
  revert s pos; induction l as [|c l IH]; intros s pos H; simpl in H.
  - exists s. split; [reflexivity|]. now rewrite Nat.add_0_r.
  - destruct s as [|d s]; [discriminate|].
    destruct (N.eqb_spec c d) as [->|]; [|discriminate].
    apply IH in H as (rest & -> & Hk). exists rest. split; [reflexivity|].
    simpl. now rewrite Nat.add_succ_r.
Qed.

Lemma star_space_sound (s : text) (pos : nat) (k : cont) (e : nat) :
  star_space s pos k = Some e ->
  exists w rest, s = w ++ rest /\ Forall (fun c => is_space c = true) w
                 /\ k rest (pos + List.length w) = Some e.
Proof.
  revert pos; induction s as [|c s IH]; intros pos H; simpl in H.
  - exists [], []. rewrite Nat.add_0_r. auto.
  - destruct (is_space c) eqn:Hc.
    + destruct (star_space s (S pos) k) as [e'|] eqn:E.
      * injection H as ->. apply IH in E as (w & rest & -> & Hw & Hk).
        exists (c :: w), rest. repeat split; auto.
        simpl. now rewrite Nat.add_succ_r.
      * exists [], (c :: s). rewrite Nat.add_0_r. auto.
    + exists [], (c :: s). rewrite Nat.add_0_r. auto.
Qed.

Lemma star_space_none (s : text) (pos : nat) (k : cont) :
  star_space s pos k = None -> k s pos = None.
Proof.
  destruct s as [|c s]; simpl; [auto|].
  destruct (is_space c); [|auto].
  destruct (star_space s (S pos) k); [discriminate|auto].
Qed.

Lemma star_space_complete (w rest : text) (pos : nat) (k : cont) :
  Forall (fun c => is_space c = true) w ->
  k rest (pos + List.length w) <> None ->
  star_space (w ++ rest) pos k <> None.
Proof.
  intros Hw; revert pos; induction Hw as [|c w Hc Hw IH]; intros pos Hk.
  - simpl in *. rewrite Nat.add_0_r in Hk. intros E.
    now apply star_space_none in E.
  - simpl. rewrite Hc.
    destruct (star_space (w ++ rest) (S pos) k) eqn:E; [discriminate|].
    exfalso. apply (IH (S pos)); [|exact E].
    simpl in Hk. now rewrite Nat.add_succ_r in Hk.
Qed.

Lemma m_sound (r : re) :
  forall (s : text) (pos : nat) (k : cont) (e : nat),
    m r s pos k = Some e ->
    exists w rest, s = w ++ rest /\ Matches r w
                   /\ k rest (pos + List.length w) = Some e.
Proof.
  induction r as [c|l| |r1 IH1 r2 IH2|r1 IH1 r2 IH2]; intros s pos k e H;
    simpl in H.
  - destruct s as [|d s]; [discriminate|].
    destruct (N.eqb_spec d c); [discriminate|].
    exists [d], s. repeat split; [now constructor|].
    simpl. now rewrite Nat.add_1_r.
  - apply lit_sound in H as (rest & -> & Hk).
    exists l, rest. repeat split; [constructor|exact Hk].
  - apply star_space_sound in H as (w & rest & -> & Hw & Hk).
    exists w, rest. repeat split; [now constructor|exact Hk].
  - apply IH1 in H as (w1 & rest1 & -> & M1 & H).
    apply IH2 in H as (w2 & rest2 & -> & M2 & H).
    exists (w1 ++ w2), rest2. repeat split.
    + now rewrite app_assoc.
    + now constructor.
    + now rewrite length_app, Nat.add_assoc.
  - destruct (m r1 s pos k) as [e'|] eqn:E.
    + injection H as ->. apply IH1 in E as (w & rest & -> & M1 & Hk).
      exists w, rest. repeat split; [now apply MAltL|exact Hk].
    + apply IH2 in H as (w & rest & -> & M2 & Hk).
      exists w, rest. repeat split; [now apply MAltR|exact Hk].
Qed.

Lemma m_complete (r : re) (w : text) :
  Matches r w ->
  forall (rest : text) (pos : nat) (k : cont),
    k rest (pos + List.length w) <> None ->
    m r (w ++ rest) pos k <> None.
Proof.
  induction 1 as [c d Hd|l|w Hw|r1 r2 w1 w2 _ IH1 _ IH2|r1 r2 w _ IH|r1 r2 w _ IH];
    intros rest pos k Hk; simpl.
  - destruct (N.eqb_spec d c); [contradiction|].
    simpl in Hk. now rewrite Nat.add_1_r in Hk.
  - now rewrite lit_eq.
  - now apply star_space_complete.
  - rewrite <- app_assoc. apply IH1. apply IH2.
    now rewrite length_app, Nat.add_assoc in Hk.
  - destruct (m r1 (w ++ rest) pos k) eqn:E; [discriminate|].
    exfalso. now apply (IH rest pos k).
  - destruct (m r1 (w ++ rest) pos k) eqn:E; [discriminate|].
    now apply IH.
Qed.

(** A text has a match of [r] at its head. *)
Definition matches_head (r : re) (s : text) : Prop :=
  exists w v, s = w ++ v /\ Matches r w.

Lemma match_at_sound (r : re) (s : text) (pos e : nat) :
  match_at r s pos = Some e ->
  exists w v, s = w ++ v /\ Matches r w /\ e = pos + List.length w.
Proof.
  intros H. apply m_sound in H as (w & v & -> & Hm & He).
  injection He as <-. now exists w, v.
Qed.

Lemma match_at_none (r : re) (s : text) (pos : nat) :
  match_at r s pos = None -> ~ matches_head r s.
Proof.
  intros H (w & v & -> & Hm).
  now apply (m_complete r w Hm v pos (fun _ p => Some p)).
Qed.

(** [search] returns a match, and no match starts before it. *)
Lemma search_from_sound (r : re) (s : text) :
  forall (pos b e : nat),
    search_from r s pos = Some (b, e) ->
    exists u w v,
      s = u ++ w ++ v /\ Matches r w
      /\ b = pos + List.length u /\ e = b + List.length w
      /\ forall u' t, s = u' ++ t -> matches_head r t ->
                      List.length u <= List.length u'.
Proof.
  induction s as [|c s IH]; intros pos b e H; simpl in H.
  - destruct (match_at r [] pos) as [e'|] eqn:E; [|discriminate].
    injection H as <- <-. apply match_at_sound in E as (w & v & Hs & Hm & ->).
    exists [], w, v. simpl. rewrite Nat.add_0_r.
    repeat split; auto. intros; lia.
  - destruct (match_at r (c :: s) pos) as [e'|] eqn:E.
    + injection H as <- <-. apply match_at_sound in E as (w & v & Hs & Hm & ->).
      exists [], w, v. simpl. rewrite Nat.add_0_r.
      repeat split; auto. intros; lia.
    + apply IH in H as (u & w & v & -> & Hm & -> & -> & Hleft).
      exists (c :: u), w, v. simpl. repeat split; auto; try lia.
      intros u' t Hs Ht. destruct u' as [|c' u'].
      * simpl in Hs. subst t. now apply match_at_none in E.
      * injection Hs as _ Hs. simpl. apply le_n_S. now apply (Hleft u' t).
Qed.

Lemma search_from_complete (r : re) (u t : text) :
  matches_head r t ->
  forall pos, search_from r (u ++ t) pos <> None.
Proof.
  intros Ht. induction u as [|c u IH]; intros pos.
  - simpl. destruct t as [|c t]; simpl.
    + destruct (match_at r [] pos) eqn:E; [discriminate|].
      now apply match_at_none in E.
    + destruct (match_at r (c :: t) pos) eqn:E; [discriminate|].
      now apply match_at_none in E.
  - simpl. destruct (match_at r (c :: u ++ t) pos); [discriminate|]. apply IH.
Qed.

Lemma match_at_head (r : re) (s : text) (pos e : nat) :
  match_at r s pos = Some e -> matches_head r s.
Proof.
  intros H. apply match_at_sound in H as (w & v & Hs & Hm & _).
  now exists w, v.
Qed.

Lemma firstn_length_app {A} (x y : list A) :
  firstn (List.length x) (x ++ y) = x.
Proof. induction x as [|a x IH]; simpl; [now destruct y|now rewrite IH]. Qed.

Lemma skipn_length_app {A} (x y : list A) :
  skipn (List.length x) (x ++ y) = y.
Proof. induction x as [|a x IH]; simpl; auto. Qed.

(** ** The instrumentation step *)

(** A loop header, as the instrumentation recognises it: a character
    that is not a space, [while], and one of the four spellings of the
    condition, up to the colon. *)
Definition loop_header (w : text) : Prop := Matches infinite_loop_re w.

(** The text that [add_frequency_control] searches has a loop header. *)
Definition has_loop_header (code : text) : Prop :=
  exists u t,
    frequency_control_code_imports ++ code = u ++ t
    /\ matches_head infinite_loop_re t.

Ltac invert_matches :=
  repeat match goal with
         | H : Matches (Seq _ _) _ |- _ => inversion H; subst; clear H
         | H : Matches (Alt _ _) _ |- _ => inversion H; subst; clear H
         | H : Matches (Lit _) _ |- _ => inversion H; subst; clear H
         end.

Lemma loop_header_colon (w : text) :
  loop_header w -> exists w', w = w' ++ txt ":".
Proof.
  unfold loop_header, infinite_loop_re, while_paren_true, while_true,
    while_one, while_paren_one, seqs; simpl fold_right.
  intros H. invert_matches;
    rewrite app_nil_r, !app_assoc; eexists; reflexivity.
Qed.

Lemma imports_no_colon (x y : text) :
  frequency_control_code_imports <> x ++ txt ":" ++ y.
Proof.
  intros E.
  assert (H : In 58%N frequency_control_code_imports)
    by (rewrite E; apply in_or_app; right; now left).
  vm_compute in H. intuition discriminate.
Qed.

(** Without a loop header, [infinite_loop] is [None] and the call of
    [.end()] fails. *)
Lemma add_frequency_control_no_header (code : text) :
  ~ has_loop_header code ->
  add_frequency_control code = inl none_has_no_end.
Proof.
  intros Hn. unfold add_frequency_control, search.
  destruct (search_from infinite_loop_re _ 0) as [[b e]|] eqn:E; [|reflexivity].
  exfalso. apply Hn.
  apply search_from_sound in E as (u & w & v & Hs & Hm & _).
  exists u, (w ++ v). split; [exact Hs|]. now exists w, v.
Qed.

Definition indented_loop : text :=
  txt "def main():" ++ nl ++ txt "    while True:" ++ nl
    ++ txt "        pass" ++ nl.

(** The counterexample to C6 as stated: the input has the header
    [while True:], but behind a space, where the pattern does not look;
    no fragment is inserted, the call fails. *)
Lemma indented_loop_not_instrumented :
  contains (txt "while True:") indented_loop = true
  /\ add_frequency_control indented_loop = inl none_has_no_end.
Proof. split; vm_compute; reflexivity. Qed.

(** C6, amended.  [add_frequency_control] is a function of its input,
    and on an input in which the pattern finds a loop header ([while]
    right after a character that is not a space, then one of the four
    spellings) its result is the input with three fragments put in: the
    imports in front, the capture of the start time right after the first
    header that matches, the timing block at the end.  The input is
    [a ++ b], cut where the first header [w] ends; nothing else is
    changed. *)
Theorem add_frequency_control_inserts (code : text) :
  has_loop_header code ->
  exists a b u w,
    code = a ++ b
    /\ frequency_control_code_imports ++ a = u ++ w
    /\ loop_header w
    /\ (forall u' t,
          frequency_control_code_imports ++ code = u' ++ t ->
          matches_head infinite_loop_re t ->
          List.length u <= List.length u')
    /\ add_frequency_control code =
         inr (frequency_control_code_imports ++ a
                ++ frequency_control_code_pre ++ b
                ++ frequency_control_code_post)
    /\ (forall code', code' = code ->
          add_frequency_control code' = add_frequency_control code).
Proof.
  intros (u0 & t0 & Hs0 & Ht0).
  destruct (search_from infinite_loop_re
              (frequency_control_code_imports ++ code) 0) as [[b e]|] eqn:E.
  2:{ exfalso. rewrite Hs0 in E. revert E. now apply search_from_complete. }
  destruct (search_from_sound _ _ _ _ _ E)
    as (u & w & v & Hs & Hm & -> & -> & Hleft).
  assert (Ha : exists a, frequency_control_code_imports ++ a = u ++ w
                         /\ code = a ++ v).
  { rewrite app_assoc in Hs. apply app_eq_app in Hs as (l & [[H1 H2]|[H1 H2]]).
    - destruct (loop_header_colon w Hm) as (w' & ->).
      exfalso. apply (imports_no_colon (u ++ w') l).
      now rewrite H1, <- !app_assoc.
    - exists l. now split. }
  destruct Ha as (a & Ha & Hc).
  exists a, v, u, w. repeat split; auto.
  - unfold add_frequency_control, search. rewrite E.
    f_equal. simpl Nat.add. rewrite <- length_app, <- Ha, Hc.
    rewrite (app_assoc frequency_control_code_imports a v).
    rewrite firstn_length_app, skipn_length_app.
    now rewrite <- !app_assoc.
  - now intros code' ->.
Qed.

Definition sample_loop : text :=
  txt "import HAL" ++ nl ++ txt "while True:" ++ nl ++ txt "    HAL.step()" ++ nl.

Lemma add_frequency_control_inserts_witness :
  exists a b u w,
    sample_loop = a ++ b
    /\ frequency_control_code_imports ++ a = u ++ w
    /\ loop_header w
    /\ (forall u' t,
          frequency_control_code_imports ++ sample_loop = u' ++ t ->
          matches_head infinite_loop_re t ->
          List.length u <= List.length u')
    /\ add_frequency_control sample_loop =
         inr (frequency_control_code_imports ++ a
                ++ frequency_control_code_pre ++ b
                ++ frequency_control_code_post)
    /\ (forall code', code' = sample_loop ->
          add_frequency_control code' = add_frequency_control sample_loop).
Proof.
  apply (add_frequency_control_inserts sample_loop).
  exists (frequency_control_code_imports ++ txt "import HAL"),
         (nl ++ txt "while True:" ++ nl ++ txt "    HAL.step()" ++ nl).
  split; [vm_compute; reflexivity|].
  apply (match_at_head _ _ 0 12). vm_compute. reflexivity.
Defined.

(** C7: on a source without a loop header the instrumentation fails with
    the [AttributeError] of [None.end()], not with an error of its own. *)
Theorem add_frequency_control_no_loop :
  add_frequency_control (txt "print(1)") = inl none_has_no_end.
Proof. vm_compute. reflexivity. Qed.

(** ** What a run keeps

    [keeps P q E c]: whatever the collaborators do, a run of [c] ends in a
    manager related by [P] to the one it started from, makes only calls
    accepted by [q], and replaces the process image only if [E]. *)
Definition keeps {A} (P : Manager -> Manager -> Prop) (q : call -> bool)
    (E : Prop) (c : M A) : Prop :=
  forall env m,
    match c env m with
    | Ret _ m' tr | Raise _ m' tr => P m m' /\ forallb q tr = true
    | Exec tr => E /\ forallb q tr = true
    end.

Class Preorder (P : Manager -> Manager -> Prop) : Prop := {
  pre_refl : forall m, P m m;
  pre_trans : forall m1 m2 m3, P m1 m2 -> P m2 m3 -> P m1 m3
}.

Definition same_state (m m' : Manager) : Prop := state m' = state m.
Definition unchanged (m m' : Manager) : Prop := m' = m.

#[export] Instance same_state_preorder : Preorder same_state.
Proof.
  split; unfold same_state; [reflexivity|]. intros; congruence.
Qed.

#[export] Instance unchanged_preorder : Preorder unchanged.
Proof.
  split; unfold unchanged; [reflexivity|]. intros; congruence.
Qed.

Section Keeps.

Context {P : Manager -> Manager -> Prop} `{Preorder P}.
Variable q : call -> bool.
Variable E : Prop.

Lemma keeps_ret {A} (a : A) : keeps P q E (ret a).
Proof. intros env m; simpl. split; [apply pre_refl|reflexivity]. Qed.

Lemma keeps_raise {A} (e : exn) : keeps P q E (@raise A e).
Proof. intros env m; simpl. split; [apply pre_refl|reflexivity]. Qed.

Lemma keeps_lift {A} (x : exn + A) : keeps P q E (lift x).
Proof. destruct x; [apply keeps_raise|apply keeps_ret]. Qed.

Lemma keeps_get : keeps P q E get.
Proof. intros env m; simpl. split; [apply pre_refl|reflexivity]. Qed.

Lemma keeps_ask : keeps P q E ask.
Proof. intros env m; simpl. split; [apply pre_refl|reflexivity]. Qed.

Lemma keeps_modify (f : Manager -> Manager) :
  (forall m, P m (f m)) -> keeps P q E (modify f).
Proof. intros Hf env m; simpl. split; [apply Hf|reflexivity]. Qed.

Lemma keeps_emit (c : call) : q c = true -> keeps P q E (emit c).
Proof.
  intros Hc env m; simpl. rewrite Hc. split; [apply pre_refl|reflexivity].
Qed.

Lemma keeps_do (c : call) : q c = true -> keeps P q E (do c).
Proof.
  intros Hc env m; unfold do.
  destruct (raises env c); simpl; rewrite Hc;
    (split; [apply pre_refl|reflexivity]).
Qed.

Lemma keeps_do_ret {A} (c : call) (v : Env -> A) :
  q c = true -> keeps P q E (do_ret c v).
Proof.
  intros Hc env m; unfold do_ret.
  destruct (raises env c); simpl; rewrite Hc;
    (split; [apply pre_refl|reflexivity]).
Qed.

Lemma keeps_execl {A} : E -> q os_execl = true -> keeps P q E (@execl A).
Proof. intros HE Hc env m; simpl. now rewrite Hc. Qed.

Lemma keeps_after {A} (m0 m1 : Manager) (tr : trace) (r : result A) :
  P m0 m1 -> forallb q tr = true ->
  match r with
  | Ret _ m' tr' | Raise _ m' tr' => P m1 m' /\ forallb q tr' = true
  | Exec tr' => E /\ forallb q tr' = true
  end ->
  match after tr r with
  | Ret _ m' tr' | Raise _ m' tr' => P m0 m' /\ forallb q tr' = true
  | Exec tr' => E /\ forallb q tr' = true
  end.
Proof.
  intros H01 Htr. destruct r; simpl; intros [H1 H2];
    rewrite forallb_app, Htr, H2; split; auto;
    eapply pre_trans; eauto.
Qed.

Lemma keeps_bind {A B} (c : M A) (k : A -> M B) :
  keeps P q E c -> (forall a, keeps P q E (k a)) -> keeps P q E (bind c k).
Proof.
  intros Hc Hk env m. unfold bind. specialize (Hc env m).
  destruct (c env m) as [a m1 tr|e m1 tr|tr]; auto.
  destruct Hc as [H1 H2]. apply (keeps_after m m1); auto. apply Hk.
Qed.

Lemma keeps_try {A} (c : M A) (h : exn -> M A) :
  keeps P q E c -> (forall e, keeps P q E (h e)) ->
  keeps P q E (try_except c h).
Proof.
  intros Hc Hh env m. unfold try_except. specialize (Hc env m).
  destruct (c env m) as [a m1 tr|e m1 tr|tr]; auto.
  destruct Hc as [H1 H2]. apply (keeps_after m m1); auto. apply Hh.
Qed.

End Keeps.

(** One step of a proof that a method keeps something: the shape of the
    method decides the lemma; what is left is a call to accept or an
    assignment to relate. *)
Ltac keeps_step :=
  match goal with
  | |- keeps _ _ _ (bind _ _) => apply keeps_bind; [|intros]
  | |- keeps _ _ _ (try_except _ _) => apply keeps_try; [|intros]
  | |- keeps _ _ _ (ret _) => apply keeps_ret
  | |- keeps _ _ _ (raise _) => apply keeps_raise
  | |- keeps _ _ _ (lift _) => apply keeps_lift
  | |- keeps _ _ _ get => apply keeps_get
  | |- keeps _ _ _ ask => apply keeps_ask
  | |- keeps _ _ _ (emit _) => apply keeps_emit; reflexivity
  | |- keeps _ _ _ (do _) => apply keeps_do; reflexivity
  | |- keeps _ _ _ (do_ret _ _) => apply keeps_do_ret; reflexivity
  | |- keeps _ _ _ (modify _) =>
      apply keeps_modify; intros; reflexivity
  | |- keeps _ _ _ execl => apply keeps_execl; [exact I|reflexivity]
  | |- keeps _ _ _ (match ?x with _ => _ end) => destruct x
  | |- keeps _ _ _ (if ?b then _ else _) => destruct b
  end.

Ltac keeps_auto := repeat keeps_step.

Definition any_call (_ : call) : bool := true.

(** A call that brings up a session resource. *)
Definition allocates (c : call) : bool :=
  match c with
  | subprocess_Popen _ | LauncherWorld_new _ | LauncherWorld_run _
  | LauncherVisualization_new _ | LauncherVisualization_run _
  | Server_new _ | Server_start _ => true
  | _ => false
  end.

Definition no_allocation (c : call) : bool := negb (allocates c).

Section KeepsHelpers.

Context {P : Manager -> Manager -> Prop} `{Preorder P}.
Variable q : call -> bool.
Variable E : Prop.
Hypothesis q_open : forall p mode, q (fs_open p mode) = true.
Hypothesis q_write : forall p t, q (fs_write p t) = true.
Hypothesis q_listdir : forall p, q (os_listdir p) = true.

Lemma keeps_probe_consoles (l : list text) : keeps P q E (probe_consoles l).
Proof.
  induction l as [|c l IH]; simpl; [apply keeps_ret|].
  apply keeps_bind; [|intros; apply keeps_bind; [exact IH|intros; apply keeps_ret]].
  destruct (text_eqb c dev_pts_0); [apply keeps_ret|].
  apply keeps_try; [|intros; apply keeps_ret].
  apply keeps_bind; [apply keeps_do, q_open|intros].
  apply keeps_bind; [apply keeps_do, q_write|intros; apply keeps_ret].
Qed.

Lemma keeps_find_docker_console : keeps P q E find_docker_console.
Proof.
  unfold find_docker_console.
  apply keeps_bind; [apply keeps_do_ret, q_listdir|intros].
  apply keeps_probe_consoles.
Qed.

Lemma keeps_write_consoles (errors : text) (l : list text) :
  keeps P q E (write_consoles errors l).
Proof.
  induction l as [|c l IH]; simpl; [apply keeps_ret|].
  apply keeps_bind; [apply keeps_do, q_open|intros].
  apply keeps_bind; [apply keeps_do, q_write|intros; exact IH].
Qed.

End KeepsHelpers.

(** *** Every method leaves [self.state] alone, and only [on_disconnect]
    replaces the process image *)

Ltac keeps_consoles :=
  first [ apply keeps_find_docker_console; intros; reflexivity
        | apply keeps_write_consoles; intros; reflexivity ].

Ltac keeps_method := repeat first [keeps_consoles | keeps_step].

Lemma on_connect_state (d : pyval) :
  keeps same_state any_call False (on_connect d).
Proof. unfold on_connect. keeps_method. Qed.

Lemma data_url_body_keeps P `{Preorder P} q E (v : pyval) :
  keeps P q E (data_url_body v).
Proof. unfold data_url_body. keeps_method. Qed.

Ltac keeps_url := apply data_url_body_keeps; exact _.

Lemma prepare_custom_universe_state (d : pyval) :
  keeps same_state any_call False (prepare_custom_universe d).
Proof.
  unfold prepare_custom_universe, write_decoded, concat_str.
  repeat first [keeps_url | keeps_step].
Qed.

Lemma on_launch_world_state (d : pyval) :
  keeps same_state any_call False (on_launch_world d).
Proof.
  unfold on_launch_world, validation_failed.
  repeat first [apply prepare_custom_universe_state | keeps_step].
Qed.

Lemma on_prepare_visualization_state (d : pyval) :
  keeps same_state any_call False (on_prepare_visualization d).
Proof. unfold on_prepare_visualization. keeps_method. Qed.

Lemma sim_state :
  keeps same_state any_call False pause_sim
  /\ keeps same_state any_call False unpause_sim
  /\ keeps same_state any_call False reset_sim.
Proof.
  unfold pause_sim, unpause_sim, reset_sim, call_service.
  repeat split; keeps_method.
Qed.

Ltac keeps_sim :=
  first [ apply (proj1 sim_state)
        | apply (proj1 (proj2 sim_state))
        | apply (proj2 (proj2 sim_state)) ].

Lemma run_bt_studio_application_state (d : pyval) :
  keeps same_state any_call False (run_bt_studio_application d).
Proof.
  unfold run_bt_studio_application, write_decoded, spawn_application.
  repeat first [keeps_url | keeps_sim | keeps_step].
Qed.

Lemma on_run_application_state (d : pyval) :
  keeps same_state any_call False (on_run_application d).
Proof.
  unfold on_run_application, is_bt_studio, backwards_compatible,
    spawn_application.
  repeat first [ apply run_bt_studio_application_state | keeps_sim
               | keeps_consoles | keeps_step ].
Qed.

Lemma on_pause_state (d : pyval) :
  keeps same_state any_call False (on_pause d).
Proof. unfold on_pause. repeat first [keeps_sim | keeps_step]. Qed.

Lemma on_resume_state (d : pyval) :
  keeps same_state any_call False (on_resume d).
Proof. unfold on_resume. repeat first [keeps_sim | keeps_step]. Qed.

Lemma on_terminate_application_state (d : pyval) :
  keeps same_state any_call False (on_terminate_application d).
Proof.
  unfold on_terminate_application. repeat first [keeps_sim | keeps_step].
Qed.

Lemma on_terminate_visualization_state (d : pyval) :
  keeps same_state any_call False (on_terminate_visualization d).
Proof. unfold on_terminate_visualization. keeps_method. Qed.

Lemma on_terminate_universe_state (d : pyval) :
  keeps same_state any_call False (on_terminate_universe d).
Proof. unfold on_terminate_universe. keeps_method. Qed.

Lemma on_style_check_application_state (d : pyval) :
  keeps same_state any_call False (on_style_check_application d).
Proof.
  unfold on_style_check_application, is_bt_studio, backwards_compatible.
  keeps_method.
Qed.

Lemma on_disconnect_state (d : pyval) :
  keeps same_state any_call True (on_disconnect d).
Proof. unfold on_disconnect, logged. keeps_method. Qed.

(** ** The table of the specification

    Section 4.1, in its own words: the eleven triggers, the source set of
    each and its destination.  [style_check] is declared from any state
    to the same state. *)
Module Spec.

Inductive Trigger : Type :=
| connect
| launch_world
| prepare_visualization
| run_application
| pause
| resume
| terminate_application
| terminate_visualization
| terminate_universe
| disconnect
| style_check.

Definition name (t : Trigger) : text :=
match t with
| connect => txt "connect"
| launch_world => txt "launch_world"
| prepare_visualization => txt "prepare_visualization"
| run_application => txt "run_application"
| pause => txt "pause"
| resume => txt "resume"
| terminate_application => txt "terminate_application"
| terminate_visualization => txt "terminate_visualization"
| terminate_universe => txt "terminate_universe"
| disconnect => txt "disconnect"
| style_check => txt "style_check"
end.

Definition source (t : Trigger) (s : State) : bool :=
match t, s with
| connect, idle => true
| launch_world, connected => true
| prepare_visualization, world_ready => true
| run_application, (visualization_ready | paused) => true
| pause, application_running => true
| resume, paused => true
| terminate_application,
  (visualization_ready | application_running | paused) => true
| terminate_visualization, visualization_ready => true
| terminate_universe, world_ready => true
| disconnect, _ => true
| style_check, _ => true
| _, _ => false
end.

Definition dest (t : Trigger) (s : State) : State :=
match t with
| connect => connected
| launch_world => world_ready
| prepare_visualization => visualization_ready
| run_application => application_running
| pause => paused
| resume => application_running
| terminate_application => visualization_ready
| terminate_visualization => world_ready
| terminate_universe => connected
| disconnect => idle
| style_check => s
end.

End Spec.

(** The row of [Manager.transitions] for a trigger, and the action it
    names. *)
Definition row_of (name : text) : option transition :=
  find (fun r => text_eqb (trigger r) name) transitions.

Definition action (name : text) (d : pyval) : M unit :=
  match row_of name with
  | Some r => callbacks method (before r) d
  | None => ret tt
  end.

(** The state the manager is found in after a run: the process that
    [os.execl] starts runs [Manager.__init__]. *)
Definition state_after {A} (r : result A) : State :=
  match r with
  | Ret _ m _ | Raise _ m _ => state m
  | Exec _ => state (init [])
  end.

Definition trace_of {A} (r : result A) : trace :=
  match r with
  | Ret _ _ tr | Raise _ _ tr | Exec tr => tr
  end.

Definition state_changed (s : State) : call :=
  consumer_send_message (msg_state_changed s).

(** ** The machine on the table of the source *)

Lemma table_lookup (t : Spec.Trigger) (s : State) :
  transitions_from transitions (Spec.name t) s =
    if Spec.source t s
    then match row_of (Spec.name t) with Some r => [r] | None => [] end
    else [].
Proof. destruct t, s; vm_compute; reflexivity. Qed.

Lemma table_event (t : Spec.Trigger) :
  has_event transitions (Spec.name t) = true.
Proof. destruct t; vm_compute; reflexivity. Qed.

Lemma table_row (t : Spec.Trigger) :
  exists r, row_of (Spec.name t) = Some r
            /\ trigger r = Spec.name t
            /\ (t <> Spec.style_check ->
                forall s, dest r = Some (state_name (Spec.dest t s))).
Proof.
  destruct t; eexists; (split; [vm_compute; reflexivity|]);
    (split; [reflexivity|]); intros Hn s; try reflexivity.
  now contradiction Hn.
Qed.

Lemma get_state_name (s : State) : get_state (state_name s) = Some s.
Proof. destruct s; vm_compute; reflexivity. Qed.

Lemma state_name_not_same (s : State) :
  text_eqb (state_name s) wildcard_same = false.
Proof. destruct s; vm_compute; reflexivity. Qed.

Lemma after_nil {A} (r : result A) : after [] r = r.
Proof. now destruct r. Qed.

(** A trigger outside its sources is refused, and nothing else happens. *)
Lemma fire_refused (name : text) (d : pyval) (env : Env) (m : Manager) :
  has_event transitions name = true ->
  transitions_from transitions name (state m) = [] ->
  exists msg, trigger_ name d env m = Raise (MachineError msg) m [].
Proof.
  intros He Ht. unfold trigger_, fire. rewrite He.
  unfold bind, get. simpl. rewrite Ht. simpl. eexists; reflexivity.
Qed.

(** A trigger inside its sources runs the transition: the callbacks of
    [before] first, then the change of state and the notification. *)
Lemma fire_executes (name : text) (d : pyval) (env : Env) (m : Manager)
    (r : transition) (rest : list transition) :
  has_event transitions name = true ->
  transitions_from transitions name (state m) = r :: rest ->
  trigger_ name d env m =
    match callbacks method (before r) d env m with
    | Ret _ m' tr =>
        after tr
          ((match dest r with
            | Some dst => change_state (state m) dst
            | None => ret tt
            end ;; state_change) env m')
    | Raise e m' tr => Raise e m' tr
    | Exec tr => Exec tr
    end.
Proof.
  intros He Ht. unfold trigger_, fire. rewrite He.
  unfold bind at 1. unfold get at 1. rewrite Ht. simpl after.
  unfold execute. unfold bind at 1.
  destruct (callbacks method (before r) d env m); now rewrite after_nil.
Qed.

Lemma commit_registered (from s : State) (m : Manager) (env : Env) :
  (change_state from (state_name s) ;; state_change) env m =
    Ret tt (set_state s m) [state_changed s].
Proof.
  unfold change_state. rewrite state_name_not_same, get_state_name.
  reflexivity.
Qed.

(** Every callback of the table leaves [self.state] alone. *)
Lemma method_state (n : text) (f : pyval -> M unit) (d : pyval) :
  method n = Some f -> keeps same_state any_call True (f d).
Proof.
  unfold method. intros Hf.
  assert (Hin : In f (map snd methods)).
  { destruct (find _ methods) as [p|] eqn:E; [|discriminate].
    injection Hf as <-. apply in_map. now apply find_some in E. }
  assert (weaken : forall c : M unit,
             keeps same_state any_call False c ->
             keeps same_state any_call True c).
  { intros c Hc env m0. specialize (Hc env m0).
    destruct (c env m0); intuition. }
  simpl in Hin.
  repeat (destruct Hin as [<-|Hin];
          [first [apply on_disconnect_state | apply weaken]|]);
    try contradiction;
    auto using on_connect_state, on_launch_world_state,
      on_prepare_visualization_state, on_run_application_state,
      on_pause_state, on_resume_state, on_terminate_application_state,
      on_terminate_visualization_state, on_terminate_universe_state,
      on_style_check_application_state.
Qed.

Lemma callbacks_state (names : list text) (d : pyval) :
  keeps same_state any_call True (callbacks method names d).
Proof.
  induction names as [|n names IH]; simpl; [apply keeps_ret|].
  destruct (method n) as [f|] eqn:E; [|apply keeps_raise].
  apply keeps_bind; [now apply (method_state n)|intros; exact IH].
Qed.

Lemma keeps_weaken {A} P q (E E' : Prop) (c : M A) :
  (E -> E') -> keeps P q E c -> keeps P q E' c.
Proof.
  intros HE Hc env m. specialize (Hc env m). destruct (c env m); intuition.
Qed.

(** The method that the table names for a trigger of the specification. *)
Definition callback_of (t : Spec.Trigger) : pyval -> M unit :=
  match t with
  | Spec.connect => on_connect
  | Spec.launch_world => on_launch_world
  | Spec.prepare_visualization => on_prepare_visualization
  | Spec.run_application => on_run_application
  | Spec.pause => on_pause
  | Spec.resume => on_resume
  | Spec.terminate_application => on_terminate_application
  | Spec.terminate_visualization => on_terminate_visualization
  | Spec.terminate_universe => on_terminate_universe
  | Spec.disconnect => on_disconnect
  | Spec.style_check => on_style_check_application
  end.

Lemma action_callback (t : Spec.Trigger) (d : pyval) :
  action (Spec.name t) d = (callback_of t d ;; ret tt).
Proof. destruct t; reflexivity. Qed.

Lemma callback_state (t : Spec.Trigger) (d : pyval) :
  keeps same_state any_call (t = Spec.disconnect) (callback_of t d).
Proof.
  destruct t; simpl;
    first [ apply (keeps_weaken _ _ True); [reflexivity|];
            apply on_disconnect_state
          | apply (keeps_weaken _ _ False); [contradiction|] ];
    auto using on_connect_state, on_launch_world_state,
      on_prepare_visualization_state, on_run_application_state,
      on_pause_state, on_resume_state, on_terminate_application_state,
      on_terminate_visualization_state, on_terminate_universe_state,
      on_style_check_application_state.
Qed.

Lemma action_state (t : Spec.Trigger) (d : pyval) :
  keeps same_state any_call (t = Spec.disconnect) (action (Spec.name t) d).
Proof.
  rewrite action_callback.
  apply keeps_bind; [apply callback_state|intros; apply keeps_ret].
Qed.

Lemma action_before (t : Spec.Trigger) (d : pyval) :
  forall r, row_of (Spec.name t) = Some r ->
            action (Spec.name t) d = callbacks method (before r) d.
Proof. intros r Hr. unfold action. now rewrite Hr. Qed.

(** What the table of the specification promises for a trigger [t] fired
    in the state of [m], given how the action of [t] ends. *)
Definition follows_table (t : Spec.Trigger) (d : pyval) (env : Env)
    (m : Manager) : Prop :=
  let fired := trigger_ (Spec.name t) d env m in
  let dst := Spec.dest t (state m) in
  if Spec.source t (state m)
  then match action (Spec.name t) d env m with
       | Ret _ m' tr =>
           fired = Ret tt (set_state dst m') (tr ++ [state_changed dst])
       | Raise e m' tr =>
           fired = Raise e m' tr /\ state m' = state m
       | Exec tr =>
           fired = Exec tr /\ state_after fired = dst
       end
  else exists msg, fired = Raise (MachineError msg) m [].

(** C1, amended.  For the ten triggers that change the state: outside the
    declared sources the trigger is refused with an error and the state is
    unchanged; inside them the action runs, and the state becomes the
    declared destination when the action completes (for [disconnect], by
    the restart into [idle]), while an action that raises leaves the state
    unchanged and its error is reported.  [style_check] is accepted in
    every state, runs its action, and never changes the state. *)
Theorem trigger_follows_table (t : Spec.Trigger) (d : pyval) (env : Env)
    (m : Manager) :
  match t with
  | Spec.style_check =>
      Spec.source t (state m) = true
      /\ trace_of (trigger_ (Spec.name t) d env m)
         = trace_of (action (Spec.name t) d env m)
      /\ state_after (trigger_ (Spec.name t) d env m) = state m
  | _ => follows_table t d env m
  end.
Proof.
  pose proof (table_lookup t (state m)) as Hl.
  pose proof (table_event t) as He.
  pose proof (action_state t d env m) as Hk.
  destruct (table_row t) as (r & Hr & _ & Hd).
  rewrite Hr in Hl. rewrite (action_before t d r Hr) in *.
  assert (Hgen : t <> Spec.style_check -> follows_table t d env m).
  { intros Hn. unfold follows_table.
    rewrite (action_before t d r Hr).
    destruct (Spec.source t (state m)).
    - rewrite (fire_executes _ d env m r [] He Hl).
      destruct (callbacks method (before r) d env m) as [[] m' tr|e m' tr|tr].
      + rewrite (Hd Hn (state m)), commit_registered. reflexivity.
      + split; [reflexivity|apply Hk].
      + split; [reflexivity|]. destruct Hk as [-> _]. reflexivity.
    - now apply fire_refused. }
  destruct t; try (apply Hgen; discriminate).
  split; [reflexivity|].
  simpl Spec.source in Hl. cbv iota in Hl.
  rewrite (fire_executes _ d env m r [] He Hl).
  injection Hr as <-.
  destruct (callbacks method _ d env m) as [[] m' tr|e m' tr|tr].
  - simpl. destruct Hk as [Hs _]. split; [apply app_nil_r|exact Hs].
  - simpl. split; [reflexivity|apply Hk].
  - destruct Hk as [Hk _]. discriminate.
Qed.

(** ** Sample sessions *)

(** Collaborators that never fail: two consoles besides [/dev/pts/0], a
    linter that finds nothing. *)
Definition quiet : Env :=
  {| raises := fun _ => None;
     validated := fun v => v;
     decoded := fun t => t;
     path_exists := fun _ => false;
     path_isfile := fun _ => false;
     listdir := fun _ => [txt "0"; txt "1"; txt "ptmx"; txt "2"];
     lint := fun _ _ _ => [];
     image_tag := txt "4.1";
     gpu := false;
     current_client := None |}.

Definition fresh : Manager := init (txt "b'humble'").

Definition in_state (s : State) : Manager := set_state s fresh.

Definition inline_code (code : string) : pyval :=
  PDict [(txt "template", PStr (txt "/templates/follow_line"));
         (txt "exercise_id", PStr (txt "follow_line"));
         (txt "code", PStr (txt code))].

(** The counterexample to C1 as stated: [style_check] is declared from
    any state, and yet firing it on code that the linter accepts does not
    succeed; it raises with the text ["No errors found"]. *)
Lemma style_check_clean_code_raises :
  Spec.source Spec.style_check (state fresh) = true
  /\ exists tr,
       trigger_ (Spec.name Spec.style_check) (inline_code "print(1)") quiet fresh
       = Raise (Exception (txt "No errors found")) fresh tr.
Proof. split; [reflexivity|]. eexists. vm_compute. reflexivity. Qed.

(** C2: a transition runs its action on the state it starts from, before
    the destination is committed.  When the action raises, the trigger
    raises the same error to [process_message] and to the loop and the
    state is the one before the trigger; when the trigger returns, the
    action had returned, the new state differs from the action's result
    in [state] only, and the last call is the notification of the new
    state. *)
Theorem transition_action_before_commit (msg : message) (env : Env)
    (m : Manager) (r : transition) (rest : list transition) :
  text_eqb (command msg) (txt "gui") = false ->
  has_event transitions (command msg) = true ->
  transitions_from transitions (command msg) (state m) = r :: rest ->
  let d := if truthy (data msg) then data msg else PNone in
  let act := callbacks method (before r) d env m in
  (forall e m' tr,
      act = Raise e m' tr ->
      trigger_ (command msg) d env m = Raise e m' tr
      /\ process_message msg env m = Raise e m' tr
      /\ state m' = state m)
  /\ (forall m'' tr'',
        trigger_ (command msg) d env m = Ret tt m'' tr'' ->
        exists m' tr,
          act = Ret tt m' tr
          /\ state m' = state m
          /\ m'' = set_state (state m'') m'
          /\ tr'' = tr ++ [state_changed (state m'')]).
Proof.
  intros Hg He Ht d act.
  pose proof (callbacks_state (before r) d env m) as Hk. fold act in Hk.
  pose proof (fire_executes _ d env m r rest He Ht) as Hf. fold act in Hf.
  split.
  - intros e m' tr Ha. rewrite Ha in Hf, Hk. repeat split; auto.
    + unfold process_message. rewrite Hg. fold d. unfold bind at 1.
      now rewrite Hf.
    + apply Hk.
  - intros m'' tr'' Hr. rewrite Hr in Hf.
    destruct act as [[] m' tr|e m' tr|tr]; try discriminate.
    exists m', tr. split; [reflexivity|]. split; [apply Hk|].
    revert Hf. unfold bind, change_state, state_change, get, emit.
    destruct (dest r) as [dst|]; simpl.
    + destruct (get_state _) as [s|]; simpl; [|discriminate].
      intros [= -> ->]. split; reflexivity.
    + intros [= -> ->]. split; [now destruct m'|reflexivity].
Qed.

(** Collaborators whose validator rejects every configuration. *)
Definition rejecting : Env :=
  {| raises := fun c =>
       match c with
       | ConfigurationManager_validate _ => Some (ValueError (txt "invalid world"))
       | _ => None
       end;
     validated := validated quiet;
     decoded := decoded quiet;
     path_exists := path_exists quiet;
     path_isfile := path_isfile quiet;
     listdir := listdir quiet;
     lint := lint quiet;
     image_tag := image_tag quiet;
     gpu := gpu quiet;
     current_client := current_client quiet |}.

Definition launch_row : transition :=
  row "launch_world" (from "connected") "world_ready" "on_launch_world".

Definition launch_nothing : message :=
  {| id := txt "7"; command := txt "launch_world"; data := PNone |}.

Lemma transition_action_before_commit_witness :
  exists tr,
    trigger_ (txt "launch_world") PNone rejecting (in_state connected)
    = Raise (UnboundLocalError (txt "cfg")) (in_state connected) tr
    /\ process_message launch_nothing rejecting (in_state connected)
       = Raise (UnboundLocalError (txt "cfg")) (in_state connected) tr
    /\ state (in_state connected) = connected.
Proof.
  eexists.
  apply (proj1 (transition_action_before_commit launch_nothing rejecting
                  (in_state connected) launch_row []
                  ltac:(vm_compute; reflexivity)
                  ltac:(vm_compute; reflexivity)
                  ltac:(vm_compute; reflexivity))).
  vm_compute. reflexivity.
Defined.

(** C4: when the validator rejects the payload of [launch_world], the
    action raises before any launcher is built or run, the manager is
    left as it was, and the trigger fired in [connected] raises the same
    error, so that the state remains [connected]. *)
Theorem launch_world_invalid_configuration (d : pyval) (env : Env)
    (m : Manager) (e : exn) :
  raises env (ConfigurationManager_validate d) = Some e ->
  state m = connected ->
  exists e' tr,
    on_launch_world d env m = Raise e' m tr
    /\ trigger_ (txt "launch_world") d env m = Raise e' m tr
    /\ forallb no_allocation tr = true
    /\ state_after (trigger_ (txt "launch_world") d env m) = connected.
Proof.
  intros Hv Hs.
  assert (Ha : exists e' tr,
             on_launch_world d env m = Raise e' m tr
             /\ forallb no_allocation tr = true).
  { unfold on_launch_world, bind, try_except, do_ret, validation_failed.
    rewrite Hv. destruct (is_ValueError e); simpl;
      eexists; eexists; split; reflexivity. }
  destruct Ha as (e' & tr & Ha & Hq).
  assert (Hf : trigger_ (txt "launch_world") d env m = Raise e' m tr).
  { rewrite (fire_executes _ d env m launch_row []).
    - change (callbacks method (before launch_row) d env m)
        with ((on_launch_world d ;; ret tt) env m).
      unfold bind at 1. now rewrite Ha.
    - vm_compute; reflexivity.
    - rewrite Hs. vm_compute; reflexivity. }
  exists e', tr. rewrite Hf. repeat split; auto.
Qed.

Lemma launch_world_invalid_configuration_witness :
  exists e' tr,
    on_launch_world PNone rejecting (in_state connected)
    = Raise e' (in_state connected) tr
    /\ trigger_ (txt "launch_world") PNone rejecting (in_state connected)
       = Raise e' (in_state connected) tr
    /\ forallb no_allocation tr = true
    /\ state_after (trigger_ (txt "launch_world") PNone rejecting
                      (in_state connected)) = connected.
Proof.
  apply (launch_world_invalid_configuration PNone rejecting
           (in_state connected) (ValueError (txt "invalid world")));
    reflexivity.
Defined.

(** ** Teardown *)

(** A guarded step: the call, and the log of its failure when it
    raises. *)
Definition attempted (env : Env) (c : call) (msg : string) : trace :=
  match raises env c with
  | Some _ => [c; log_exception (txt msg)]
  | None => [c]
  end.

Definition when {A} (h : option A) (f : A -> trace) : trace :=
  match h with
  | Some x => f x
  | None => []
  end.

Definition application_teardown (c : call) : bool :=
  match c with stop_process_and_children _ => true | _ => false end.

Definition visualization_teardown (c : call) : bool :=
  match c with LauncherVisualization_terminate _ => true | _ => false end.

Definition world_teardown (c : call) : bool :=
  match c with LauncherWorld_terminate _ => true | _ => false end.

Definition times (f : call -> bool) (tr : trace) : nat :=
  List.length (filter f tr).

Definition populated {A} (h : option A) : nat :=
  match h with Some _ => 1 | None => 0 end.

(** The calls of [on_disconnect], whatever fails. *)
Lemma on_disconnect_trace (d : pyval) (env : Env) (m : Manager) :
  on_disconnect d env m =
    Exec (attempted env consumer_stop "Exception stopping consumer"
          ++ when (application_process m)
               (fun p => attempted env (stop_process_and_children p)
                           "Exception stopping application process")
          ++ when (visualization_launcher m)
               (fun v => attempted env (LauncherVisualization_terminate v)
                           "Exception terminating visualization launcher")
          ++ when (world_launcher m)
               (fun w => attempted env (LauncherWorld_terminate w)
                           "Exception terminating world launcher")
          ++ [os_execl]).
Proof.
  destruct m as [s ros w v p g].
  unfold on_disconnect, logged, attempted, when, bind, try_except, do, emit,
    get, modify, execl, ret; simpl.
  destruct (raises env consumer_stop); simpl;
    destruct p as [p|]; simpl;
    try destruct (raises env (stop_process_and_children p)); simpl;
    destruct v as [v|]; simpl;
    try destruct (raises env (LauncherVisualization_terminate v)); simpl;
    destruct w as [w|]; simpl;
    try destruct (raises env (LauncherWorld_terminate w)); simpl;
    reflexivity.
Qed.

Lemma times_app (f : call -> bool) (a b : trace) :
  times f (a ++ b) = times f a + times f b.
Proof. unfold times. now rewrite filter_app, length_app. Qed.

Lemma times_attempted (f : call -> bool) (env : Env) (c : call) (msg : string) :
  (forall t, f (log_exception t) = false) ->
  times f (attempted env c msg) = if f c then 1 else 0.
Proof.
  intros Hlog. unfold attempted, times.
  destruct (raises env c); simpl; rewrite ?Hlog; now destruct (f c).
Qed.

(** The counterexample to C3 as stated: from [idle], with no handle
    populated, [disconnect] stops the transport and restarts; it attempts
    the teardown of no resource. *)
Lemma disconnect_skips_absent_resources :
  trigger_ (txt "disconnect") PNone quiet fresh = Exec [consumer_stop; os_execl]
  /\ times world_teardown
       (trace_of (trigger_ (txt "disconnect") PNone quiet fresh)) = 0.
Proof. split; vm_compute; reflexivity. Qed.

(** C3, amended.  Fired from any of the six states, [disconnect] ends in
    the restart of the manager, which comes up in [idle]; before that its
    action attempts, whatever fails, the teardown of each kind of
    resource once when its handle is populated and not at all when it is
    absent. *)
Theorem disconnect_tears_down_populated (d : pyval) (env : Env) (m : Manager) :
  exists tr,
    trigger_ (txt "disconnect") d env m = Exec tr
    /\ state_after (trigger_ (txt "disconnect") d env m) = idle
    /\ times application_teardown tr = populated (application_process m)
    /\ times visualization_teardown tr = populated (visualization_launcher m)
    /\ times world_teardown tr = populated (world_launcher m).
Proof.
  assert (Hf : trigger_ (txt "disconnect") d env m =
               after (trace_of (on_disconnect d env m)) (Exec [])).
  { pose proof (table_lookup Spec.disconnect (state m)) as Hl.
    simpl Spec.source in Hl. cbv iota in Hl.
    destruct (table_row Spec.disconnect) as (r & Hr & _).
    rewrite Hr in Hl.
    change (txt "disconnect") with (Spec.name Spec.disconnect).
    rewrite (fire_executes _ d env m r [] (table_event Spec.disconnect) Hl).
    injection Hr as <-.
    change (callbacks method _ d env m) with ((on_disconnect d ;; ret tt) env m).
    unfold bind at 1. rewrite on_disconnect_trace. simpl.
    now rewrite app_nil_r. }
  rewrite Hf, on_disconnect_trace. simpl trace_of. simpl after.
  eexists. split; [reflexivity|]. split; [reflexivity|].
  rewrite app_nil_r, !times_app.
  destruct (application_process m), (visualization_launcher m),
    (world_launcher m); simpl when;
    rewrite ?times_attempted by reflexivity; repeat split.
Qed.

(** The call that [pause_sim] and [reset_sim] make, by distribution. *)
Definition sim_call (m : Manager) (legacy service : string) : call :=
  if is_noetic m
  then rosservice_call_service (txt legacy)
  else subprocess_call
         (txt "ros2 service call " ++ txt service ++ txt " " ++ std_srvs_Empty).

Definition pause_call (m : Manager) : call :=
  sim_call m "/gazebo/pause_physics" "/pause_physics".

Definition reset_call (m : Manager) : call :=
  sim_call m "/gazebo/reset_world" "/reset_world".

Definition no_application_running : call :=
  log_exception (txt "No application running").

(** Collaborators that cannot stop a process. *)
Definition stubborn : Env :=
  {| raises := fun c =>
       match c with
       | stop_process_and_children _ => Some (OSError (txt "no such process"))
       | _ => None
       end;
     validated := validated quiet;
     decoded := decoded quiet;
     path_exists := path_exists quiet;
     path_isfile := path_isfile quiet;
     listdir := listdir quiet;
     lint := lint quiet;
     image_tag := image_tag quiet;
     gpu := gpu quiet;
     current_client := current_client quiet |}.

Definition exercise : Popen :=
  {| args := [txt "python3"; txt "/workspace/code/exercise.py"] |}.

Definition running : Manager :=
  set_application_process (Some exercise) (in_state application_running).

(** The counterexample to C8 as stated: when the process tree cannot be
    stopped, the failure is logged and neither the pause nor the reset of
    the simulation is attempted; the handle is not cleared either. *)
Lemma terminate_application_stops_at_first_failure :
  on_terminate_application PNone stubborn running =
    Ret tt running [stop_process_and_children exercise; no_application_running].
Proof. vm_compute. reflexivity. Qed.

(** C8, amended.  With no application handle the action does nothing.
    With one, it stops the process tree, clears the handle, pauses and
    resets the simulation, in that order and under one guard: the first
    step that fails is logged and the steps after it are not attempted.
    The action never raises. *)
Theorem terminate_application_single_guard (d : pyval) (env : Env)
    (m : Manager) :
  match application_process m with
  | None => on_terminate_application d env m = Ret tt m []
  | Some p =>
      let stop := stop_process_and_children p in
      let cleared := set_application_process None m in
      match raises env stop with
      | Some _ =>
          on_terminate_application d env m
          = Ret tt m [stop; no_application_running]
      | None =>
          match raises env (pause_call m) with
          | Some _ =>
              on_terminate_application d env m
              = Ret tt cleared [stop; pause_call m; no_application_running]
          | None =>
              match raises env (reset_call m) with
              | Some _ =>
                  on_terminate_application d env m
                  = Ret tt cleared
                      [stop; pause_call m; reset_call m; no_application_running]
              | None =>
                  on_terminate_application d env m
                  = Ret tt cleared [stop; pause_call m; reset_call m]
              end
          end
      end
  end.
Proof.
  destruct m as [s ros w v p g].
  unfold on_terminate_application, pause_call, reset_call, sim_call,
    pause_sim, reset_sim, call_service, is_noetic,
    bind, try_except, do, emit, get, modify, ret; simpl.
  destruct p as [p|]; simpl; [|reflexivity].
  destruct (raises env (stop_process_and_children p)); simpl; [reflexivity|].
  destruct (contains (txt "noetic") ros) eqn:Hn; simpl;
    match goal with
    | |- context [raises env ?c] =>
        destruct (raises env c); simpl; rewrite ?Hn; simpl; [reflexivity|]
    end;
    match goal with
    | |- context [raises env ?c] =>
        destruct (raises env c); simpl; rewrite ?Hn; simpl; reflexivity
    end.
Qed.

(** ** The relay *)

Definition relay_only (c : call) : bool :=
  match c with server_send_message _ _ => true | _ => false end.

(** C10: a [gui] command handled while no relay exists raises; and a
    [gui] command never touches the manager, the machine or anything but
    the relay. *)
Theorem gui_command_bypasses_machine (msg : message) (env : Env) (m : Manager) :
  command msg = txt "gui" ->
  (gui_server m = None ->
   process_message msg env m = Raise (none_has_no "send") m [])
  /\ match process_message msg env m with
     | Ret _ m' tr | Raise _ m' tr => m' = m /\ forallb relay_only tr = true
     | Exec _ => False
     end.
Proof.
  intros Hc. unfold process_message. rewrite Hc.
  change (text_eqb (txt "gui") (txt "gui")) with true. cbv iota.
  split.
  - intros Hg. cbv [bind get after]. now rewrite Hg.
  - cbv [bind get after Server_send ask do raise ret].
    destruct (gui_server m); simpl; [|auto].
    destruct (current_client env) as [c|]; simpl; [|auto].
    destruct (raises env (server_send_message c (data msg))); simpl; auto.
Qed.

Definition gui_frame : message :=
  {| id := txt "9"; command := txt "gui"; data := PStr (txt "{}") |}.

Lemma gui_command_bypasses_machine_witness :
  (gui_server fresh = None ->
   process_message gui_frame quiet fresh = Raise (none_has_no "send") fresh [])
  /\ match process_message gui_frame quiet fresh with
     | Ret _ m' tr | Raise _ m' tr => m' = fresh /\ forallb relay_only tr = true
     | Exec _ => False
     end.
Proof.
  apply (gui_command_bypasses_machine gui_frame quiet fresh). reflexivity.
Defined.

(** ** Runs, step by step *)

Lemma bind_ret_run {A B} (c : M A) (k : A -> M B) env m a m' tr :
  c env m = Ret a m' tr -> bind c k env m = after tr (k a env m').
Proof. intros Hc. unfold bind. now rewrite Hc. Qed.

Lemma bind_raise_run {A B} (c : M A) (k : A -> M B) env m e m' tr :
  c env m = Raise e m' tr -> bind c k env m = Raise e m' tr.
Proof. intros Hc. unfold bind. now rewrite Hc. Qed.

Lemma do_ok (c : call) env m :
  raises env c = None -> do c env m = Ret tt m [c].
Proof. intros Hc. unfold do. now rewrite Hc. Qed.

Lemma do_ret_ok {A} (c : call) (v : Env -> A) env m :
  raises env c = None -> do_ret c v env m = Ret (v env) m [c].
Proof. intros Hc. unfold do_ret. now rewrite Hc. Qed.

Lemma bind_ret_left {A B} (a : A) (k : A -> M B) env m :
  bind (ret a) k env m = k a env m.
Proof. unfold bind, ret. apply after_nil. Qed.

Lemma bind_get {B} (k : Manager -> M B) env m :
  bind get k env m = k m env m.
Proof. unfold bind, get. apply after_nil. Qed.

Lemma after_after {A} (a b : trace) (r : result A) :
  after a (after b r) = after (a ++ b) r.
Proof. destruct r; simpl; now rewrite app_assoc. Qed.

(** ** The operator consoles *)

Definition open_w (i : text) : call := fs_open i (txt "w").

(** The probe never raises, and keeps only consoles that took the empty
    write. *)
Lemma probe_consoles_ret (l : list text) (env : Env) (m : Manager) :
  exists consoles tr,
    probe_consoles l env m = Ret consoles m tr
    /\ Forall (fun i => raises env (open_w i) = None) consoles.
Proof.
  induction l as [|c l (consoles & tr & IH & Hall)]; simpl.
  - exists [], []. split; [reflexivity|constructor].
  - unfold bind at 1. destruct (text_eqb c dev_pts_0).
    + simpl. rewrite (bind_ret_run _ _ _ _ _ _ _ IH). simpl.
      eexists; eexists; split; [reflexivity|exact Hall].
    + unfold try_except, bind at 1, do at 1.
      destruct (raises env (fs_open c (txt "w"))) eqn:Ho; simpl.
      * rewrite (bind_ret_run _ _ _ _ _ _ _ IH). simpl.
        eexists; eexists; split; [reflexivity|exact Hall].
      * unfold bind at 1, do at 1.
        destruct (raises env (fs_write c [])) eqn:Hw; simpl;
          rewrite (bind_ret_run _ _ _ _ _ _ _ IH); simpl;
          eexists; eexists; (split; [reflexivity|]);
          [exact Hall|constructor; [exact Ho|exact Hall]].
Qed.

(** The report reaches every console that accepts it. *)
Lemma write_consoles_ret (errors : text) (l : list text) (env : Env)
    (m : Manager) :
  Forall (fun i => raises env (open_w i) = None) l ->
  (forall i, In i l -> raises env (fs_write i (errors ++ nl ++ nl)) = None) ->
  exists tr,
    write_consoles errors l env m = Ret tt m tr
    /\ forallb no_allocation tr = true
    /\ forall i, In i l -> In (fs_write i (errors ++ nl ++ nl)) tr.
Proof.
  induction 1 as [|c l Ho _ IH]; intros Hw; simpl.
  - exists []. repeat split. contradiction.
  - destruct IH as (tr & IH & Hq & Hin); [intros; apply Hw; now right|].
    rewrite (bind_ret_run _ _ _ _ _ _ _ (do_ok _ env m Ho)).
    rewrite (bind_ret_run _ _ _ _ _ _ _
               (do_ok _ env m (Hw c (or_introl eq_refl)))).
    rewrite IH. simpl. eexists. split; [reflexivity|]. split; [exact Hq|].
    intros i [<-|Hi]; [right; now left|right; right; now apply Hin].
Qed.

Lemma find_docker_console_consoles (env : Env) (m m' : Manager)
    (consoles : list text) (tr : trace) :
  find_docker_console env m = Ret consoles m' tr ->
  m' = m
  /\ forallb no_allocation tr = true
  /\ Forall (fun i => raises env (open_w i) = None) consoles.
Proof.
  intros Hf.
  pose proof (keeps_find_docker_console (P := unchanged) no_allocation False
                ltac:(reflexivity) ltac:(reflexivity) ltac:(reflexivity)
                env m) as Hk.
  rewrite Hf in Hk. destruct Hk as [Hm Hq]. repeat split; auto.
  revert Hf. unfold find_docker_console, bind, do_ret.
  destruct (raises env _); [discriminate|].
  destruct (probe_consoles_ret
              (map (fun dev => txt "/dev/pts/" ++ dev)
                 (filter isdigit (listdir env (txt "/dev/pts/")))) env m)
    as (cs & tr' & -> & Hall).
  simpl. now intros [= <- _ _].
Qed.

(** ** Lint *)

(** A payload that is not marked as a packaged [bt-studio]
    application. *)
Definition inline (d : pyval) : Prop :=
  forall t, subscript d (txt "type") = inr t ->
            eq_str t (txt "bt-studio") = false.

(** The code that is handed to the linter. *)
Definition compatible (c : text) : text :=
  replace (txt "from HAL import HAL") (txt "import HAL")
    (replace (txt "from GUI import GUI") (txt "import GUI") c).

Definition style_source : option text := Some (txt "pylint_checker_style.py").

(** What [style_check] raises with. *)
Definition report (errors : text) : text :=
  if text_eqb errors [] then txt "No errors found" else errors.

Definition never_returns {A} (c : M A) : Prop :=
  forall env m, match c env m with Ret _ _ _ => False | _ => True end.

Lemma never_returns_raise {A} (e : exn) : never_returns (@raise A e).
Proof. intros env m; exact I. Qed.

Lemma never_returns_bind {A B} (c : M A) (k : A -> M B) :
  (forall a, never_returns (k a)) -> never_returns (bind c k).
Proof.
  intros Hk env m. unfold bind. destruct (c env m) as [a m' tr| |]; auto.
  specialize (Hk a env m'). now destruct (k a env m').
Qed.

Lemma is_bt_studio_inline (d : pyval) (env : Env) (m : Manager) :
  inline d ->
  try_except (is_bt_studio d) (fun _ => ret false) env m = Ret false m [].
Proof.
  intros Hi. unfold try_except, is_bt_studio, bind, lift.
  destruct (subscript d (txt "type")) as [e|t] eqn:E; simpl; [reflexivity|].
  now rewrite (Hi t E).
Qed.

Lemma on_style_check_application_unchanged (d : pyval) :
  keeps unchanged no_allocation False (on_style_check_application d).
Proof.
  unfold on_style_check_application, is_bt_studio, backwards_compatible.
  keeps_method.
Qed.

(** The action of [style_check] on an inline payload, from the test of
    the type on. *)
Lemma on_style_check_application_inline (d : pyval) (env : Env) (m : Manager) :
  inline d ->
  on_style_check_application d env m =
    (exercise_id <- lift (subscript d (txt "exercise_id")) ;;
     code <- lift (subscript d (txt "code")) ;;
     code <- backwards_compatible code ;;
     errors <- do_ret (linter_evaluate_code code exercise_id style_source)
                 (fun env => lint env code exercise_id style_source) ;;
     console_path <- find_docker_console ;;
     write_consoles (report errors) console_path ;;
     raise (Exception (report errors))) env m.
Proof.
  intros Hi. unfold on_style_check_application.
  rewrite (bind_ret_run _ _ _ _ _ _ _ (is_bt_studio_inline d env m Hi)).
  now rewrite after_nil.
Qed.

(** The counterexample to C9 as stated: the linter reports no error on
    the code, and the action raises all the same. *)
Lemma style_check_raises_without_lint_failure :
  lint quiet (compatible (txt "print(1)")) (PStr (txt "follow_line"))
    style_source = []
  /\ exists tr,
       on_style_check_application (inline_code "print(1)") quiet fresh
       = Raise (Exception (txt "No errors found")) fresh tr.
Proof. split; [reflexivity|]. eexists. vm_compute. reflexivity. Qed.

Definition style_row : transition :=
  row "style_check" (from "*") "*" "on_style_check_application".

Lemma style_check_lookup (s : State) :
  transitions_from transitions (txt "style_check") s = [style_row].
Proof. destruct s; vm_compute; reflexivity. Qed.

(** C9, amended.  [style_check] is action-only: in every state and on
    every payload the trigger leaves the manager as it was, lifecycle
    state and handles, and makes no call that brings up a resource.  On
    an inline payload its action always ends by raising; when the linter
    was run and the consoles took the report, what it raises is the
    linter's text, or ["No errors found"] when the linter has none,
    after writing that text to every console found. *)
Theorem style_check_action_only (d : pyval) (env : Env) (m : Manager) :
  match trigger_ (txt "style_check") d env m with
  | Ret _ m' tr | Raise _ m' tr => m' = m /\ forallb no_allocation tr = true
  | Exec _ => False
  end
  /\ (inline d ->
      exists e tr, on_style_check_application d env m = Raise e m tr)
  /\ (inline d ->
      forall exercise_id c consoles trp,
        subscript d (txt "exercise_id") = inr exercise_id ->
        subscript d (txt "code") = inr (PStr c) ->
        let linted := linter_evaluate_code (compatible c) exercise_id style_source in
        let found := report (lint env (compatible c) exercise_id style_source) in
        raises env linted = None ->
        find_docker_console env m = Ret consoles m trp ->
        (forall i, In i consoles ->
                   raises env (fs_write i (found ++ nl ++ nl)) = None) ->
        exists tr,
          on_style_check_application d env m = Raise (Exception found) m tr
          /\ In linted tr
          /\ forall i, In i consoles -> In (fs_write i (found ++ nl ++ nl)) tr).
Proof.
  pose proof (on_style_check_application_unchanged d env m) as Hk.
  split; [|split].
  - rewrite (fire_executes (txt "style_check") d env m style_row []
               ltac:(vm_compute; reflexivity) (style_check_lookup (state m))).
    change (callbacks method (before style_row) d env m)
      with ((on_style_check_application d ;; ret tt) env m).
    unfold bind at 1.
    destruct (on_style_check_application d env m) as [[] m' tr|e m' tr|tr];
      simpl; destruct Hk as [Hm Hq]; [|now split|contradiction].
    rewrite !app_nil_r. now split.
  - intros Hi.
    assert (Hn : never_returns (on_style_check_application d)).
    { intros env0 m0. rewrite (on_style_check_application_inline d env0 m0 Hi).
      revert env0 m0. fold (never_returns (A := unit)).
      repeat (apply never_returns_bind; intros).
      apply never_returns_raise. }
    specialize (Hn env m).
    destruct (on_style_check_application d env m) as [[] m' tr|e m' tr|tr];
      try contradiction; [|now destruct Hk].
    destruct Hk as [-> _]. now exists e, tr.
  - intros Hi exercise_id c consoles trp Hex Hc linted found Hl Hf Hw.
    destruct (find_docker_console_consoles _ _ _ _ _ Hf) as (_ & _ & Ho).
    destruct (write_consoles_ret found consoles env m Ho Hw)
      as (trw & Hwr & _ & Hin).
    rewrite (on_style_check_application_inline d env m Hi).
    rewrite Hex, Hc. simpl lift.
    cbv [bind ret after].
    change (backwards_compatible (PStr c) env m)
      with (Ret (compatible c) m (@nil call)).
    cbv iota beta.
    rewrite (do_ret_ok _ _ env m Hl). fold linted. fold found.
    rewrite Hf, Hwr. simpl.
    eexists. split; [reflexivity|]. split; [now left|].
    intros i Hi'. right. apply in_or_app. right.
    rewrite app_nil_r. now apply Hin.
Qed.

Lemma style_check_action_only_witness :
  exists tr,
    on_style_check_application (inline_code "print(1)") quiet fresh
    = Raise (Exception (txt "No errors found")) fresh tr
    /\ In (linter_evaluate_code (compatible (txt "print(1)"))
             (PStr (txt "follow_line")) style_source) tr
    /\ forall i, In i [txt "/dev/pts/1"; txt "/dev/pts/2"] ->
                 In (fs_write i (txt "No errors found" ++ nl ++ nl)) tr.
Proof.
  eapply (proj2 (proj2 (style_check_action_only (inline_code "print(1)")
                          quiet fresh))).
  - intros t Ht. vm_compute in Ht. discriminate.
  - reflexivity.
  - reflexivity.
  - reflexivity.
  - vm_compute. reflexivity.
  - intros i Hi. reflexivity.
Defined.

(** ** Running an application that fails lint *)

Lemma subscript_truthy (d : pyval) (k : text) (v : pyval) :
  subscript d k = inr v -> truthy d = true.
Proof. destruct d as [|s|[|p l]]; simpl; try discriminate. reflexivity. Qed.

Lemma not_packaged (d : pyval) (env : Env) (m : Manager) :
  inline d ->
  try_except
    (bt <- is_bt_studio d ;;
     if bt then run_bt_studio_application d ;; ret true else ret false)
    (fun _ => ret false) env m = Ret false m [].
Proof.
  intros Hi. unfold try_except, is_bt_studio, bind at 1 2, lift.
  destruct (subscript d (txt "type")) as [e|t] eqn:E; simpl; [reflexivity|].
  now rewrite (Hi t E).
Qed.

(** What follows a lint failure: the report to the consoles and the
    raise. *)
Definition lint_failed (errors : text) : M unit :=
  console_path <- find_docker_console ;;
  write_consoles errors console_path ;;
  raise (Exception errors).

Lemma lint_failed_raises (errors : text) (env : Env) (m : Manager) :
  exists e tr,
    lint_failed errors env m = Raise e m tr
    /\ forallb no_allocation tr = true.
Proof.
  assert (Hk : keeps unchanged no_allocation False (lint_failed errors))
    by (unfold lint_failed; keeps_method).
  assert (Hn : never_returns (lint_failed errors)).
  { unfold lint_failed. repeat (apply never_returns_bind; intros).
    apply never_returns_raise. }
  specialize (Hk env m). specialize (Hn env m).
  destruct (lint_failed errors env m) as [[] m' tr|e m' tr|tr];
    try contradiction; [|now destruct Hk].
  destruct Hk as [-> Hq]. now exists e, tr.
Qed.

Lemma lint_failed_reports (errors : text) (env : Env) (m : Manager)
    (consoles : list text) (trp : trace) :
  find_docker_console env m = Ret consoles m trp ->
  (forall i, In i consoles ->
             raises env (fs_write i (errors ++ nl ++ nl)) = None) ->
  exists tr,
    lint_failed errors env m = Raise (Exception errors) m tr
    /\ forall i, In i consoles -> In (fs_write i (errors ++ nl ++ nl)) tr.
Proof.
  intros Hf Hw.
  destruct (find_docker_console_consoles _ _ _ _ _ Hf) as (_ & _ & Ho).
  destruct (write_consoles_ret errors consoles env m Ho Hw)
    as (trw & Hwr & _ & Hin).
  unfold lint_failed. cbv [bind after]. rewrite Hf, Hwr. simpl.
  eexists. split; [reflexivity|].
  intros i Hi. apply in_or_app. right. rewrite app_nil_r. now apply Hin.
Qed.

Lemma text_eqb_nil (t : text) : t <> [] -> text_eqb t [] = false.
Proof. destruct t; [contradiction|reflexivity]. Qed.

(** The folder of the template, by distribution. *)
Definition template_folder (m : Manager) (tpl : text) : text :=
  tpl ++ (if is_noetic m then txt "/ros1_noetic/" else txt "/ros2_humble/").

(** [on_run_application] on an inline payload whose code fails lint. *)
Lemma on_run_application_rejected (d : pyval) (env : Env) (m : Manager)
    (tpl c : text) (exercise_id : pyval) :
  inline d ->
  subscript d (txt "template") = inr (PStr tpl) ->
  subscript d (txt "exercise_id") = inr exercise_id ->
  subscript d (txt "code") = inr (PStr c) ->
  let probe := os_path_isfile (template_folder m tpl ++ txt "exercise.py") in
  let linted := linter_evaluate_code (compatible c) exercise_id None in
  let errors := lint env (compatible c) exercise_id None in
  raises env probe = None ->
  raises env linted = None ->
  errors <> [] ->
  on_run_application d env m =
    after [probe; linted] (lint_failed errors env m).
Proof.
  intros Hi Ht Hex Hc probe linted errors Hp Hl He.
  unfold on_run_application.
  rewrite (bind_ret_run _ _ _ _ _ _ _ (not_packaged d env m Hi)).
  rewrite after_nil, Ht, Hex, Hc. simpl lift.
  rewrite !bind_ret_left, bind_get. cbv iota beta.
  rewrite bind_ret_left. fold (template_folder m tpl).
  rewrite (bind_ret_run _ _ _ _ _ _ _ (do_ret_ok _ _ env m Hp)).
  change (backwards_compatible (PStr c)) with (@ret text (compatible c)).
  rewrite bind_ret_left.
  rewrite (bind_ret_run _ _ _ _ _ _ _ (do_ret_ok _ _ env m Hl)).
  fold errors. rewrite (text_eqb_nil errors He).
  now rewrite after_after.
Qed.

Definition run_row : transition :=
  row "run_application" (from_any ["visualization_ready"; "paused"]%string)
      "application_running" "on_run_application".

Lemma run_application_lookup (s : State) :
  Spec.source Spec.run_application s = true ->
  transitions_from transitions (txt "run_application") s = [run_row].
Proof. destruct s; try discriminate; intros _; vm_compute; reflexivity. Qed.

(** The error response of the loop for a command. *)
Definition error_response (msg : message) (e : exn) : trace :=
  [consumer_send_message (msg_exception (id msg) (str_exn e));
   log_error (str_exn e)].

(** C5: a [run_application] command with inline code that the linter
    rejects.  The action raises without any call that brings up a
    process; the loop answers with an error that carries the id of the
    command; the manager is left as it was, state and handles.  When the
    consoles that were found take the report, the error is the linter's
    text and that text was written to each of them. *)
Theorem run_application_lint_failure (msg : message) (env : Env) (m : Manager)
    (tpl c : text) (exercise_id : pyval) :
  command msg = txt "run_application" ->
  Spec.source Spec.run_application (state m) = true ->
  inline (data msg) ->
  subscript (data msg) (txt "template") = inr (PStr tpl) ->
  subscript (data msg) (txt "exercise_id") = inr exercise_id ->
  subscript (data msg) (txt "code") = inr (PStr c) ->
  raises env (os_path_isfile (template_folder m tpl ++ txt "exercise.py")) = None ->
  raises env (linter_evaluate_code (compatible c) exercise_id None) = None ->
  lint env (compatible c) exercise_id None <> [] ->
  let errors := lint env (compatible c) exercise_id None in
  exists e tr,
    on_run_application (data msg) env m = Raise e m tr
    /\ forallb no_allocation tr = true
    /\ handle msg env m = Ret tt m (tr ++ error_response msg e)
    /\ forall consoles trp,
         find_docker_console env m = Ret consoles m trp ->
         (forall i, In i consoles ->
                    raises env (fs_write i (errors ++ nl ++ nl)) = None) ->
         e = Exception errors
         /\ forall i, In i consoles -> In (fs_write i (errors ++ nl ++ nl)) tr.
Proof.
  intros Hcmd Hsrc Hi Ht Hex Hc Hp Hl He errors.
  pose proof (on_run_application_rejected (data msg) env m tpl c
                exercise_id Hi Ht Hex Hc Hp Hl He) as Hrun.
  fold errors in Hrun.
  destruct (lint_failed_raises errors env m) as (e & trf & Hf & Hq).
  rewrite Hf in Hrun. simpl after in Hrun.
  exists e, (os_path_isfile (template_folder m tpl ++ txt "exercise.py")
             :: linter_evaluate_code (compatible c) exercise_id None :: trf).
  split; [exact Hrun|]. split; [exact Hq|]. split.
  - unfold handle, try_except, process_message. rewrite Hcmd.
    change (text_eqb (txt "run_application") (txt "gui")) with false.
    cbv iota. rewrite (subscript_truthy _ _ _ Ht).
    unfold bind at 1.
    rewrite (fire_executes (txt "run_application") (data msg) env m run_row []
               ltac:(vm_compute; reflexivity)
               (run_application_lookup (state m) Hsrc)).
    change (callbacks method (before run_row) (data msg) env m)
      with ((on_run_application (data msg) ;; ret tt) env m).
    unfold bind at 1. rewrite Hrun. reflexivity.
  - intros consoles trp Hfd Hw.
    destruct (lint_failed_reports errors env m consoles trp Hfd Hw)
      as (tr' & Hr & Hin).
    rewrite Hr in Hf. injection Hf as <- <-.
    split; [reflexivity|]. intros i Hi'. right. right. now apply Hin.
Qed.

Definition bad_code : text := txt "while True:" ++ nl ++ txt "    x = " ++ nl.

(** Collaborators whose linter rejects [bad_code]. *)
Definition strict : Env :=
  {| raises := raises quiet;
     validated := validated quiet;
     decoded := decoded quiet;
     path_exists := path_exists quiet;
     path_isfile := path_isfile quiet;
     listdir := listdir quiet;
     lint := fun code _ _ =>
       if text_eqb code bad_code then txt "E0001: syntax-error" else [];
     image_tag := image_tag quiet;
     gpu := gpu quiet;
     current_client := current_client quiet |}.

Definition run_bad_code : message :=
  {| id := txt "12";
     command := txt "run_application";
     data := PDict [(txt "template", PStr (txt "/templates/follow_line"));
                    (txt "exercise_id", PStr (txt "follow_line"));
                    (txt "code", PStr bad_code)] |}.

Lemma run_application_lint_failure_witness :
  exists e tr,
    on_run_application (data run_bad_code) strict (in_state visualization_ready)
    = Raise e (in_state visualization_ready) tr
    /\ forallb no_allocation tr = true
    /\ handle run_bad_code strict (in_state visualization_ready)
       = Ret tt (in_state visualization_ready)
           (tr ++ error_response run_bad_code e)
    /\ forall consoles trp,
         find_docker_console strict (in_state visualization_ready)
         = Ret consoles (in_state visualization_ready) trp ->
         (forall i, In i consoles ->
                    raises strict
                      (fs_write i (txt "E0001: syntax-error" ++ nl ++ nl)) = None) ->
         e = Exception (txt "E0001: syntax-error")
         /\ forall i, In i consoles ->
                      In (fs_write i (txt "E0001: syntax-error" ++ nl ++ nl)) tr.
Proof.
  apply (run_application_lint_failure run_bad_code strict
           (in_state visualization_ready)
           (txt "/templates/follow_line") bad_code (PStr (txt "follow_line")));
    try reflexivity.
  - intros t Ht. vm_compute in Ht. discriminate.
  - vm_compute. discriminate.
Defined.

(** * More of the manager *)

(** ** What every method keeps

    The same proofs as for [same_state], for any relation that the
    assignments of the methods respect and any set of calls that holds
    every call but the replies of the loop. *)

(** A reply of the loop to a command. *)
Definition is_reply (c : call) : bool :=
  match c with
  | consumer_send_message (msg_response _ _)
  | consumer_send_message (msg_exception _ _) => true
  | _ => false
  end.

Section MethodsKeep.

Context {P : Manager -> Manager -> Prop} `{Preorder P}.
Variable q : call -> bool.
Hypothesis q_call : forall c, is_reply c = false -> q c = true.
Hypothesis P_world : forall w m, P m (set_world_launcher (Some w) m).
Hypothesis P_visualization :
  forall v m, P m (set_visualization_launcher (Some v) m).
Hypothesis P_application : forall p m, P m (set_application_process (Some p) m).
Hypothesis P_stopped : forall m, P m (set_application_process None m).
Hypothesis P_gui : forall g m, P m (set_gui_server g m).

Ltac gkeeps_step :=
  match goal with
  | |- keeps _ _ _ (bind _ _) => apply keeps_bind; [|intros]
  | |- keeps _ _ _ (try_except _ _) => apply keeps_try; [|intros]
  | |- keeps _ _ _ (ret _) => apply keeps_ret
  | |- keeps _ _ _ (raise _) => apply keeps_raise
  | |- keeps _ _ _ (lift _) => apply keeps_lift
  | |- keeps _ _ _ get => apply keeps_get
  | |- keeps _ _ _ ask => apply keeps_ask
  | |- keeps _ _ _ (emit _) => apply keeps_emit; apply q_call; reflexivity
  | |- keeps _ _ _ (do _) => apply keeps_do; apply q_call; reflexivity
  | |- keeps _ _ _ (do_ret _ _) => apply keeps_do_ret; apply q_call; reflexivity
  | |- keeps _ _ _ (modify _) =>
      apply keeps_modify; intros;
      first [apply P_world | apply P_visualization | apply P_application
            | apply P_stopped | apply P_gui]
  | |- keeps _ _ _ execl => apply keeps_execl; [exact I|apply q_call; reflexivity]
  | |- keeps _ _ _ find_docker_console =>
      apply keeps_find_docker_console; intros; apply q_call; reflexivity
  | |- keeps _ _ _ (write_consoles _ _) =>
      apply keeps_write_consoles; intros; apply q_call; reflexivity
  | |- keeps _ _ _ (data_url_body _) => apply data_url_body_keeps; exact _
  | |- keeps _ _ _ (match ?x with _ => _ end) => destruct x
  | |- keeps _ _ _ (if ?b then _ else _) => destruct b
  end.

Lemma on_connect_keeps E d : keeps P q E (on_connect d).
Proof. unfold on_connect. repeat gkeeps_step. Qed.

Lemma on_launch_world_keeps E d : keeps P q E (on_launch_world d).
Proof.
  unfold on_launch_world, validation_failed, prepare_custom_universe,
    write_decoded, concat_str.
  repeat gkeeps_step.
Qed.

Lemma on_prepare_visualization_keeps E d :
  keeps P q E (on_prepare_visualization d).
Proof. unfold on_prepare_visualization. repeat gkeeps_step. Qed.

Lemma on_run_application_keeps E d : keeps P q E (on_run_application d).
Proof.
  unfold on_run_application, is_bt_studio, backwards_compatible,
    run_bt_studio_application, write_decoded, spawn_application,
    unpause_sim, call_service.
  repeat gkeeps_step.
Qed.

Lemma on_pause_keeps E d : keeps P q E (on_pause d).
Proof. unfold on_pause, pause_sim, call_service. repeat gkeeps_step. Qed.

Lemma on_resume_keeps E d : keeps P q E (on_resume d).
Proof. unfold on_resume, unpause_sim, call_service. repeat gkeeps_step. Qed.

Lemma on_terminate_application_keeps E d :
  keeps P q E (on_terminate_application d).
Proof.
  unfold on_terminate_application, pause_sim, reset_sim, call_service.
  repeat gkeeps_step.
Qed.

Lemma on_terminate_visualization_keeps E d :
  keeps P q E (on_terminate_visualization d).
Proof. unfold on_terminate_visualization. repeat gkeeps_step. Qed.

Lemma on_terminate_universe_keeps E d :
  keeps P q E (on_terminate_universe d).
Proof. unfold on_terminate_universe. repeat gkeeps_step. Qed.

Lemma on_style_check_application_keeps E d :
  keeps P q E (on_style_check_application d).
Proof.
  unfold on_style_check_application, is_bt_studio, backwards_compatible.
  repeat gkeeps_step.
Qed.

Lemma on_disconnect_keeps d : keeps P q True (on_disconnect d).
Proof. unfold on_disconnect, logged. repeat gkeeps_step. Qed.

Lemma method_keeps (n : text) (f : pyval -> M unit) (d : pyval) :
  method n = Some f -> keeps P q True (f d).
Proof.
  unfold method. intros Hf.
  assert (Hin : In f (map snd methods)).
  { destruct (find _ methods) as [p|] eqn:E; [|discriminate].
    injection Hf as <-. apply in_map. now apply find_some in E. }
  simpl in Hin.
  repeat (destruct Hin as [<-|Hin];
          [auto using on_connect_keeps, on_launch_world_keeps,
             on_prepare_visualization_keeps, on_run_application_keeps,
             on_pause_keeps, on_resume_keeps, on_terminate_application_keeps,
             on_terminate_visualization_keeps, on_terminate_universe_keeps,
             on_disconnect_keeps, on_style_check_application_keeps|]).
  contradiction.
Qed.

Lemma callbacks_keeps (names : list text) (d : pyval) :
  keeps P q True (callbacks method names d).
Proof.
  induction names as [|n names IH]; simpl; [apply keeps_ret|].
  destruct (method n) as [f|] eqn:E; [|apply keeps_raise].
  apply keeps_bind; [now apply (method_keeps n)|intros; exact IH].
Qed.

Hypothesis P_state : forall s m, P m (set_state s m).

(** The trigger of any command keeps what the methods and the change of
    state keep. *)
Lemma trigger_keeps (name : text) (d : pyval) :
  keeps P q True (trigger_ name d).
Proof.
  unfold trigger_, fire.
  destruct (has_event transitions name); [|apply keeps_raise].
  apply keeps_bind; [apply keeps_get|intros m].
  destruct (transitions_from transitions name (state m)) as [|t ts];
    [apply keeps_raise|].
  unfold execute.
  apply keeps_bind; [apply callbacks_keeps|intros].
  apply keeps_bind.
  - destruct (dest t); [|apply keeps_ret].
    unfold change_state. destruct (get_state _); [|apply keeps_raise].
    apply keeps_modify. intros; apply P_state.
  - intros. unfold state_change.
    apply keeps_bind; [apply keeps_get|intros].
    apply keeps_emit. apply q_call. reflexivity.
Qed.

End MethodsKeep.


Lemma text_eqb_eq (a b : text) : text_eqb a b = true -> a = b.
Proof.
  revert b; induction a as [|x a IH]; intros [|y b]; simpl; try discriminate;
    [reflexivity|].
  intros H. apply andb_prop in H as [Hx Hab].
  apply N.eqb_eq in Hx. apply IH in Hab. now subst.
Qed.

(** ** The loop of [start] *)

Definition anything (_ _ : Manager) : Prop := True.

#[export] Instance anything_preorder : Preorder anything.
Proof. split; unfold anything; auto. Qed.

Definition no_reply (c : call) : bool := negb (is_reply c).


Lemma no_reply_times (tr : trace) :
  forallb no_reply tr = true -> times is_reply tr = 0.
Proof.
  unfold times, no_reply.
  induction tr as [|c tr IH]; simpl; [reflexivity|].
  intros H. apply andb_prop in H as [Hc Htr].
  destruct (is_reply c); [discriminate|]. now apply IH.
Qed.




Definition connect_command : message :=
  {| id := txt "1"; command := txt "connect"; data := PNone |}.


Definition never_raises {A} (c : M A) : Prop :=
  forall env m, match c env m with Raise _ _ _ => False | _ => True end.

Lemma never_raises_bind {A B} (c : M A) (k : A -> M B) :
  never_raises c -> (forall a, never_raises (k a)) -> never_raises (bind c k).
Proof.
  intros Hc Hk env m. unfold bind. specialize (Hc env m).
  destruct (c env m) as [a m' tr| |]; auto.
  specialize (Hk a env m'). now destruct (k a env m').
Qed.

Lemma handle_never_raises (msg : message) : never_raises (handle msg).
Proof.
  intros env m. unfold handle, try_except.
  destruct (process_message msg env m); simpl; exact I.
Qed.

Lemma start_never_raises_aux (queue : list message) : never_raises (start queue).
Proof.
  induction queue as [|msg queue IH]; simpl.
  - intros env m; exact I.
  - apply never_raises_bind; [apply handle_never_raises|intros; exact IH].
Qed.


(** X3: a command that the machine does not know, or does not allow in
    the current state, changes nothing and reaches no collaborator: all
    that happens is the error reply with the id of the command. *)
Theorem refused_command_changes_nothing (msg : message) (env : Env)
    (m : Manager) :
  text_eqb (command msg) (txt "gui") = false ->
  has_event transitions (command msg) = false
  \/ transitions_from transitions (command msg) (state m) = [] ->
  exists e, handle msg env m = Ret tt m (error_response msg e).
Proof.
  intros Hg Hr.
  set (d := if truthy (data msg) then data msg else PNone).
  assert (Ht : exists e, trigger_ (command msg) d env m = Raise e m []).
  { destruct (has_event transitions (command msg)) eqn:He.
    - destruct Hr as [Hr|Hr]; [congruence|].
      destruct (fire_refused _ d env m He Hr) as (t & Ht).
      eexists; exact Ht.
    - unfold trigger_, fire. rewrite He. eexists; reflexivity. }
  destruct Ht as (e & Ht). exists e.
  unfold handle, try_except, process_message. rewrite Hg. fold d.
  unfold bind at 1. rewrite Ht. reflexivity.
Qed.

Definition pause_command : message :=
  {| id := txt "3"; command := txt "pause"; data := PNone |}.

Lemma refused_command_changes_nothing_witness :
  exists e, handle pause_command quiet fresh
            = Ret tt fresh (error_response pause_command e).
Proof.
  apply (refused_command_changes_nothing pause_command quiet fresh).
  - reflexivity.
  - right. vm_compute. reflexivity.
Defined.

Definition disconnect_row : transition :=
  row "disconnect" (from "*") "idle" "on_disconnect".

Lemma disconnect_lookup (s : State) :
  transitions_from transitions (txt "disconnect") s = [disconnect_row].
Proof. destruct s; vm_compute; reflexivity. Qed.

(** X4: a [disconnect] command ends the loop of this process: the
    commands behind it in the queue are not handled, whatever state the
    manager is in and whatever the payload. *)
Theorem disconnect_drops_the_queue (msg : message) (rest : list message)
    (env : Env) (m : Manager) :
  command msg = txt "disconnect" ->
  exists tr,
    start (msg :: rest) env m = Exec tr
    /\ start [msg] env m = Exec tr
    /\ times is_reply tr = 0.
Proof.
  intros Hc.
  set (d := if truthy (data msg) then data msg else PNone).
  assert (Hh : handle msg env m = Exec (trace_of (on_disconnect d env m))).
  { unfold handle, try_except, process_message. rewrite Hc.
    change (text_eqb (txt "disconnect") (txt "gui")) with false. cbv iota.
    fold d. unfold bind at 1.
    rewrite (fire_executes (txt "disconnect") d env m disconnect_row []
               ltac:(vm_compute; reflexivity) (disconnect_lookup (state m))).
    change (callbacks method (before disconnect_row) d env m)
      with ((on_disconnect d ;; ret tt) env m).
    unfold bind at 1. rewrite on_disconnect_trace. reflexivity. }
  exists (trace_of (on_disconnect d env m)).
  simpl start. unfold bind. rewrite Hh. repeat split.
  pose proof (on_disconnect_keeps (P := anything) no_reply
                ltac:(intros c Hq; unfold no_reply; now rewrite Hq)
                ltac:(intros; exact I) d env m) as Hk.
  rewrite on_disconnect_trace in Hk. rewrite on_disconnect_trace.
  simpl trace_of. apply no_reply_times. apply Hk.
Qed.

Definition disconnect_command : message :=
  {| id := txt "4"; command := txt "disconnect"; data := PNone |}.

Lemma disconnect_drops_the_queue_witness :
  exists tr,
    start [disconnect_command; connect_command] quiet fresh = Exec tr
    /\ start [disconnect_command] quiet fresh = Exec tr
    /\ times is_reply tr = 0.
Proof.
  apply (disconnect_drops_the_queue disconnect_command [connect_command]
           quiet fresh).
  reflexivity.
Defined.

Lemma auto_lookup (s from_ : State) :
  has_event transitions (txt "to_" ++ state_name s) = true
  /\ transitions_from transitions (txt "to_" ++ state_name s) from_
     = [{| trigger := txt "to_" ++ state_name s;
           source := src_str wildcard_all;
           dest := Some (state_name s);
           before := [] |}].
Proof. destruct s, from_; split; vm_compute; reflexivity. Qed.

(** X5: the machine is built with the automatic transitions of the
    library, so a command [to_<state>] puts the manager in that state
    from any state, without running any action: no handle changes and
    the only call is the notification of the new state. *)
Theorem to_state_skips_the_actions (s : State) (d : pyval) (env : Env)
    (m : Manager) :
  trigger_ (txt "to_" ++ state_name s) d env m
  = Ret tt (set_state s m) [state_changed s].
Proof.
  destruct (auto_lookup s (state m)) as [He Ht].
  rewrite (fire_executes _ d env m _ [] He Ht).
  simpl callbacks. simpl dest. cbv [ret]. cbv iota beta.
  rewrite commit_registered. reflexivity.
Qed.

(** ** Commands that go through *)

Lemma fire_commits (name : text) (d : pyval) (env : Env) (m m' : Manager)
    (r : transition) (rest : list transition) (s : State) (tr : trace) :
  has_event transitions name = true ->
  transitions_from transitions name (state m) = r :: rest ->
  dest r = Some (state_name s) ->
  callbacks method (before r) d env m = Ret tt m' tr ->
  trigger_ name d env m = Ret tt (set_state s m') (tr ++ [state_changed s]).
Proof.
  intros He Ht Hd Hc.
  rewrite (fire_executes name d env m r rest He Ht), Hc, Hd.
  now rewrite commit_registered.
Qed.

(** The acknowledgement of the loop. *)
Definition acknowledged (msg : message) (s : State) : call :=
  consumer_send_message
    (msg_response (id msg) (txt "Exercise state changed to " ++ state_name s)).

Lemma handle_commits (msg : message) (env : Env) (m m' : Manager) (tr : trace) :
  text_eqb (command msg) (txt "gui") = false ->
  trigger_ (command msg) (if truthy (data msg) then data msg else PNone) env m
  = Ret tt m' tr ->
  handle msg env m = Ret tt m' (tr ++ [acknowledged msg (state m')]).
Proof.
  intros Hg Ht. unfold handle, try_except, process_message.
  rewrite Hg. unfold bind at 1. rewrite Ht. reflexivity.
Qed.

Definition unpause_call (m : Manager) : call :=
  sim_call m "/gazebo/unpause_physics" "/unpause_physics".

Lemma on_pause_ok (d : pyval) (env : Env) (m : Manager) (p : Popen) :
  application_process m = Some p ->
  raises env (psutil_suspend p) = None ->
  raises env (pause_call m) = None ->
  on_pause d env m = Ret tt m [psutil_suspend p; pause_call m].
Proof.
  intros Hp Hs Hc. unfold on_pause. rewrite bind_get, Hp.
  rewrite (bind_ret_run _ _ _ _ _ _ _ (do_ok _ env m Hs)).
  unfold pause_sim. rewrite bind_get.
  unfold pause_call, sim_call, call_service in *.
  destruct (is_noetic m); now rewrite (do_ok _ env m Hc).
Qed.

Lemma on_resume_ok (d : pyval) (env : Env) (m : Manager) (p : Popen) :
  application_process m = Some p ->
  raises env (psutil_resume p) = None ->
  raises env (unpause_call m) = None ->
  on_resume d env m = Ret tt m [psutil_resume p; unpause_call m].
Proof.
  intros Hp Hs Hc. unfold on_resume. rewrite bind_get, Hp.
  rewrite (bind_ret_run _ _ _ _ _ _ _ (do_ok _ env m Hs)).
  unfold unpause_sim. rewrite bind_get.
  unfold unpause_call, sim_call, call_service in *.
  destruct (is_noetic m); now rewrite (do_ok _ env m Hc).
Qed.

Definition pause_row : transition :=
  row "pause" (from "application_running") "paused" "on_pause".

Definition resume_row : transition :=
  row "resume" (from "paused") "application_running" "on_resume".

(** X6: [pause] then [resume] from [application_running], when the four
    calls go through: the process is suspended and the simulation paused,
    then the process is resumed and the simulation unpaused, in that
    order, each command is notified and acknowledged, and the manager is
    back as it was. *)
Theorem pause_then_resume (pause_msg resume_msg : message) (env : Env)
    (m : Manager) (p : Popen) :
  command pause_msg = txt "pause" ->
  command resume_msg = txt "resume" ->
  state m = application_running ->
  application_process m = Some p ->
  raises env (psutil_suspend p) = None ->
  raises env (pause_call m) = None ->
  raises env (psutil_resume p) = None ->
  raises env (unpause_call m) = None ->
  start [pause_msg; resume_msg] env m =
    Ret tt m
      [psutil_suspend p; pause_call m;
       state_changed paused; acknowledged pause_msg paused;
       psutil_resume p; unpause_call m;
       state_changed application_running;
       acknowledged resume_msg application_running].
Proof.
  intros Hc1 Hc2 Hs Hp H1 H2 H3 H4.
  set (m1 := set_state paused m).
  assert (Hback : set_state application_running m1 = m)
    by (destruct m; simpl in *; now subst).
  assert (Hh1 : handle pause_msg env m =
                Ret tt m1 [psutil_suspend p; pause_call m;
                           state_changed paused; acknowledged pause_msg paused]).
  { rewrite (handle_commits pause_msg env m m1
               [psutil_suspend p; pause_call m; state_changed paused]);
      [reflexivity|now rewrite Hc1|].
    rewrite Hc1.
    apply (fire_commits (txt "pause") _ env m m pause_row [] paused
             [psutil_suspend p; pause_call m]);
      [vm_compute; reflexivity|rewrite Hs; vm_compute; reflexivity
      |reflexivity|].
    change (callbacks method (before pause_row) ?d env m)
      with ((on_pause d ;; ret tt) env m).
    unfold bind. now rewrite (on_pause_ok _ env m p Hp H1 H2). }
  assert (Hh2 : handle resume_msg env m1 =
                Ret tt (set_state application_running m1)
                  [psutil_resume p; unpause_call m;
                   state_changed application_running;
                   acknowledged resume_msg application_running]).
  { rewrite (handle_commits resume_msg env m1
               (set_state application_running m1)
               [psutil_resume p; unpause_call m;
                state_changed application_running]);
      [reflexivity|now rewrite Hc2|].
    rewrite Hc2.
    apply (fire_commits (txt "resume") _ env m1 m1 resume_row []
             application_running [psutil_resume p; unpause_call m]);
      [vm_compute; reflexivity|vm_compute; reflexivity|reflexivity|].
    change (callbacks method (before resume_row) ?d env m1)
      with ((on_resume d ;; ret tt) env m1).
    unfold bind. now rewrite (on_resume_ok _ env m1 p Hp H3 H4). }
  simpl start. unfold bind at 1. rewrite Hh1. unfold bind at 1.
  rewrite Hh2, Hback. reflexivity.
Qed.

Definition resume_command : message :=
  {| id := txt "5"; command := txt "resume"; data := PNone |}.

Lemma pause_then_resume_witness :
  start [pause_command; resume_command] quiet running =
    Ret tt running
      [psutil_suspend exercise; pause_call running;
       state_changed paused; acknowledged pause_command paused;
       psutil_resume exercise; unpause_call running;
       state_changed application_running;
       acknowledged resume_command application_running].
Proof.
  apply (pause_then_resume pause_command resume_command quiet running exercise);
    reflexivity.
Defined.

(** ** What the loop keeps *)

Section LoopKeeps.

Context {P : Manager -> Manager -> Prop} `{Preorder P}.
Hypothesis P_world : forall w m, P m (set_world_launcher (Some w) m).
Hypothesis P_visualization :
  forall v m, P m (set_visualization_launcher (Some v) m).
Hypothesis P_application : forall p m, P m (set_application_process (Some p) m).
Hypothesis P_stopped : forall m, P m (set_application_process None m).
Hypothesis P_gui : forall g m, P m (set_gui_server g m).
Hypothesis P_state : forall s m, P m (set_state s m).

Lemma process_message_keeps (msg : message) :
  keeps P any_call True (process_message msg).
Proof.
  unfold process_message.
  destruct (text_eqb (command msg) (txt "gui")).
  - apply keeps_bind; [apply keeps_get|intros m].
    destruct (gui_server m); [|apply keeps_raise].
    unfold Server_send. apply keeps_bind; [apply keeps_ask|intros env].
    destruct (current_client env); [now apply keeps_do|apply keeps_ret].
  - apply keeps_bind; [now apply trigger_keeps|intros].
    apply keeps_bind; [apply keeps_get|intros]. now apply keeps_emit.
Qed.

Lemma handle_keeps (msg : message) : keeps P any_call True (handle msg).
Proof.
  unfold handle. apply keeps_try; [apply process_message_keeps|intros].
  apply keeps_bind; [now apply keeps_emit|intros]. now apply keeps_emit.
Qed.

Lemma start_keeps (queue : list message) : keeps P any_call True (start queue).
Proof.
  induction queue as [|msg queue IH]; simpl; [apply keeps_ret|].
  apply keeps_bind; [apply handle_keeps|intros; exact IH].
Qed.

End LoopKeeps.

(** A launcher handle that is set stays set. *)
Definition launchers_stay (m m' : Manager) : Prop :=
  (world_launcher m <> None -> world_launcher m' <> None)
  /\ (visualization_launcher m <> None -> visualization_launcher m' <> None).

#[export] Instance launchers_stay_preorder : Preorder launchers_stay.
Proof. split; unfold launchers_stay; intuition. Qed.

(** X7: no command ever clears the handle of the world launcher or of
    the visualization launcher: once set, each is still set after any
    queue of commands, [terminate_visualization] and
    [terminate_universe] included. *)
Theorem launcher_handles_are_never_cleared (queue : list message) (env : Env)
    (m : Manager) :
  match start queue env m with
  | Ret _ m' _ =>
      (world_launcher m <> None -> world_launcher m' <> None)
      /\ (visualization_launcher m <> None -> visualization_launcher m' <> None)
  | Raise _ _ _ => False
  | Exec _ => True
  end.
Proof.
  pose proof (start_never_raises_aux queue env m) as Hn.
  pose proof (start_keeps (P := launchers_stay)) as Hk.
  specialize (Hk ltac:(intros; split; simpl; [discriminate|auto])
                 ltac:(intros; split; simpl; [auto|discriminate])
                 ltac:(intros; split; simpl; auto)
                 ltac:(intros; split; simpl; auto)
                 ltac:(intros; split; simpl; auto)
                 ltac:(intros; split; simpl; auto)
                 queue env m).
  destruct (start queue env m); auto. apply Hk.
Qed.

Definition universe_row : transition :=
  row "terminate_universe" (from "world_ready") "connected"
      "on_terminate_universe".

(** X8: [terminate_universe] terminates the world launcher and leaves its
    handle in place, so a [disconnect] that follows terminates the same
    launcher a second time. *)
Theorem world_launcher_terminated_twice (universe_msg disconnect_msg : message)
    (env : Env) (m : Manager) (w : LauncherWorld) :
  command universe_msg = txt "terminate_universe" ->
  command disconnect_msg = txt "disconnect" ->
  state m = world_ready ->
  world_launcher m = Some w ->
  raises env (LauncherWorld_terminate w) = None ->
  exists tr,
    start [universe_msg; disconnect_msg] env m = Exec tr
    /\ times world_teardown tr = 2
    /\ handle universe_msg env m
       = Ret tt (set_state connected m)
           [LauncherWorld_terminate w; state_changed connected;
            acknowledged universe_msg connected].
Proof.
  intros Hc1 Hc2 Hs Hw Hr.
  set (m1 := set_state connected m).
  assert (Hh1 : handle universe_msg env m =
                Ret tt m1 [LauncherWorld_terminate w; state_changed connected;
                           acknowledged universe_msg connected]).
  { rewrite (handle_commits universe_msg env m m1
               [LauncherWorld_terminate w; state_changed connected]);
      [reflexivity|now rewrite Hc1|].
    rewrite Hc1.
    apply (fire_commits (txt "terminate_universe") _ env m m universe_row []
             connected [LauncherWorld_terminate w]);
      [vm_compute; reflexivity|rewrite Hs; vm_compute; reflexivity
      |reflexivity|].
    change (callbacks method (before universe_row) ?d env m)
      with ((on_terminate_universe d ;; ret tt) env m).
    unfold bind at 1, on_terminate_universe. rewrite bind_get, Hw.
    now rewrite (do_ok _ env m Hr). }
  set (d := if truthy (data disconnect_msg) then data disconnect_msg else PNone).
  assert (Hh2 : handle disconnect_msg env m1 =
                Exec (trace_of (on_disconnect d env m1))).
  { unfold handle, try_except, process_message. rewrite Hc2.
    change (text_eqb (txt "disconnect") (txt "gui")) with false. cbv iota.
    fold d. unfold bind at 1.
    rewrite (fire_executes (txt "disconnect") d env m1 disconnect_row []
               ltac:(vm_compute; reflexivity) (disconnect_lookup (state m1))).
    change (callbacks method (before disconnect_row) d env m1)
      with ((on_disconnect d ;; ret tt) env m1).
    unfold bind at 1. rewrite on_disconnect_trace. reflexivity. }
  eexists. split; [|split; [|exact Hh1]].
  - simpl start. unfold bind at 1. rewrite Hh1. unfold bind at 1.
    rewrite Hh2. reflexivity.
  - rewrite on_disconnect_trace. simpl trace_of.
    change (world_launcher m1) with (world_launcher m). rewrite Hw.
    rewrite !times_app.
    change (application_process m1) with (application_process m).
    change (visualization_launcher m1) with (visualization_launcher m).
    destruct (application_process m), (visualization_launcher m);
      simpl when; rewrite ?times_attempted by reflexivity; reflexivity.
Qed.

Definition ready_world : LauncherWorld := {| world_config := PNone |}.

Definition with_world : Manager :=
  set_world_launcher (Some ready_world) (in_state world_ready).

Definition universe_command : message :=
  {| id := txt "6"; command := txt "terminate_universe"; data := PNone |}.

Lemma world_launcher_terminated_twice_witness :
  exists tr,
    start [universe_command; disconnect_command] quiet with_world = Exec tr
    /\ times world_teardown tr = 2
    /\ handle universe_command quiet with_world
       = Ret tt (set_state connected with_world)
           [LauncherWorld_terminate ready_world; state_changed connected;
            acknowledged universe_command connected].
Proof.
  apply (world_launcher_terminated_twice universe_command disconnect_command
           quiet with_world ready_world); reflexivity.
Defined.

(** ** What a method has done when it returns *)

(** From a manager with [P], a run of [c] that returns leaves a value and
    a manager with [Q]. *)
Definition triple {A} (P : Manager -> Prop) (c : M A)
    (Q : A -> Manager -> Prop) : Prop :=
  forall env m, P m ->
    match c env m with
    | Ret a m' _ => Q a m'
    | _ => True
    end.

Lemma triple_ret {A} (P : Manager -> Prop) (a : A) (Q : A -> Manager -> Prop) :
  (forall m, P m -> Q a m) -> triple P (ret a) Q.
Proof. intros HQ env m Hm. simpl. auto. Qed.

Lemma triple_raise {A} (P : Manager -> Prop) e (Q : A -> Manager -> Prop) :
  triple P (raise e) Q.
Proof. intros env m _. exact I. Qed.

Lemma triple_bind {A B} (P : Manager -> Prop) (c : M A) (k : A -> M B)
    (R : A -> Manager -> Prop) (Q : B -> Manager -> Prop) :
  triple P c R -> (forall a, triple (R a) (k a) Q) -> triple P (bind c k) Q.
Proof.
  intros Hc Hk env m Hm. unfold bind. specialize (Hc env m Hm).
  destruct (c env m) as [a m' tr| |]; auto.
  specialize (Hk a env m' Hc). now destruct (k a env m').
Qed.

(** When what follows establishes [Q] by itself. *)
Lemma triple_then {A B} (P : Manager -> Prop) (c : M A) (k : A -> M B)
    (Q : B -> Manager -> Prop) :
  (forall a, triple (fun _ => True) (k a) Q) -> triple P (bind c k) Q.
Proof.
  intros Hk. apply (triple_bind P c k (fun _ _ => True)); auto.
  intros env m _. now destruct (c env m).
Qed.

Lemma triple_try {A} (P : Manager -> Prop) (c : M A) (h : exn -> M A)
    (Q : A -> Manager -> Prop) :
  triple P c Q -> (forall e, triple (fun _ => True) (h e) Q) ->
  triple P (try_except c h) Q.
Proof.
  intros Hc Hh env m Hm. unfold try_except. specialize (Hc env m Hm).
  destruct (c env m) as [a m' tr|e m' tr|]; auto.
  specialize (Hh e env m' I). now destruct (h e env m').
Qed.

Lemma triple_keeps {A} (P : Manager -> Prop) (c : M A)
    (Q : A -> Manager -> Prop) (R : Manager -> Manager -> Prop) q E :
  keeps R q E c -> (forall a m m', P m -> R m m' -> Q a m') -> triple P c Q.
Proof.
  intros Hk HQ env m Hm. specialize (Hk env m).
  destruct (c env m) as [a m' tr| |]; auto. destruct Hk as [Hr _]. eauto.
Qed.

Definition has_application (m : Manager) : Prop := application_process m <> None.
Definition has_visualization (m : Manager) : Prop :=
  visualization_launcher m <> None.
Definition has_world (m : Manager) : Prop := world_launcher m <> None.

Lemma unpause_sim_unchanged : keeps unchanged any_call False unpause_sim.
Proof. unfold unpause_sim, call_service. keeps_method. Qed.

(** [spawn_application argv ;; unpause_sim] returns with the handle of
    the process. *)
Lemma spawn_then_unpause (argv : list text) :
  triple (fun _ => True) (spawn_application argv ;; unpause_sim)
    (fun _ => has_application).
Proof.
  apply (triple_bind _ _ _ (fun _ => has_application)).
  - unfold spawn_application. apply triple_then. intros p env m _. simpl.
    unfold has_application. simpl. discriminate.
  - intros _. apply (triple_keeps _ _ _ unchanged any_call False);
      [apply unpause_sim_unchanged|].
    intros _ m m' Hm Hu. unfold unchanged in Hu. now subst.
Qed.

Ltac skip_to_spawn :=
  repeat match goal with
         | |- triple _ (bind (spawn_application _) _) _ => fail 1
         | |- triple _ (bind _ _) _ => apply triple_then; intros
         end.

Lemma run_bt_studio_application_spawns (d : pyval) :
  triple (fun _ => True) (run_bt_studio_application d)
    (fun _ => has_application).
Proof.
  unfold run_bt_studio_application.
  skip_to_spawn. apply spawn_then_unpause.
Qed.

(** When [on_run_application] returns, the handle of the process is
    set. *)
Lemma on_run_application_spawns (d : pyval) :
  triple (fun _ => True) (on_run_application d) (fun _ => has_application).
Proof.
  unfold on_run_application.
  apply (triple_bind _ _ _ (fun started m => started = true -> has_application m)).
  - apply triple_try; [|intros; apply triple_ret; discriminate].
    apply triple_then. intros [|]; [|apply triple_ret; discriminate].
    apply (triple_bind _ _ _ (fun _ => has_application)).
    + apply run_bt_studio_application_spawns.
    + intros. apply triple_ret. auto.
  - intros [|].
    + apply triple_ret. auto.
    + repeat (apply triple_then; intros).
      match goal with |- triple _ (if ?b then _ else _) _ => destruct b end.
      * skip_to_spawn. apply spawn_then_unpause.
      * repeat (apply triple_then; intros). apply triple_raise.
Qed.

Lemma on_launch_world_launches (d : pyval) :
  triple (fun _ => True) (on_launch_world d) (fun _ => has_world).
Proof.
  unfold on_launch_world. apply triple_then. intros [c|]; [|apply triple_raise].
  apply triple_then. intros w.
  apply (triple_bind _ _ _ (fun _ => has_world)).
  - intros env m _. simpl. unfold has_world. simpl. discriminate.
  - intros _. intros env m Hm. unfold do.
    destruct (raises env (LauncherWorld_run w)); auto.
Qed.

Lemma on_prepare_visualization_prepares (d : pyval) :
  triple (fun _ => True) (on_prepare_visualization d)
    (fun _ => has_visualization).
Proof.
  unfold on_prepare_visualization. apply triple_then. intros v.
  apply (triple_bind _ _ _ (fun _ => has_visualization)).
  - intros env m _. simpl. unfold has_visualization. simpl. discriminate.
  - intros _.
    apply (triple_keeps _ _ _
             (fun m m' => visualization_launcher m' = visualization_launcher m)
             any_call False).
    + assert (Hpre : Preorder
                (fun m m' => visualization_launcher m' = visualization_launcher m))
        by (split; intros; congruence).
      repeat first [ apply keeps_bind; [|intros]
                   | apply keeps_do; reflexivity
                   | apply keeps_do_ret; reflexivity
                   | apply keeps_modify; intros; reflexivity
                   | apply keeps_ret
                   | match goal with
                     | |- keeps _ _ _ (if ?b then _ else _) => destruct b
                     end ].
    + intros _ m m' Hm Heq. unfold has_visualization in *. congruence.
Qed.

(** ** Handles and states *)

Definition needs_application (s : State) : bool :=
  match s with application_running | paused => true | _ => false end.

Definition needs_visualization (s : State) : bool :=
  match s with
  | visualization_ready | application_running | paused => true
  | _ => false
  end.

Definition needs_world (s : State) : bool :=
  match s with idle | connected => false | _ => true end.

(** The handles that the methods of a state dereference are set. *)
Definition consistent (m : Manager) : Prop :=
  (needs_application (state m) = true -> has_application m)
  /\ (needs_visualization (state m) = true -> has_visualization m)
  /\ (needs_world (state m) = true -> has_world m).

(** The name of an automatic transition. *)
Definition is_auto (name : text) : bool :=
  existsb (fun t => text_eqb (trigger t) name) auto_transitions.

(** The state is kept, and so is every handle but that of the
    application. *)
Definition launchers_kept (m m' : Manager) : Prop :=
  state m' = state m
  /\ (has_visualization m -> has_visualization m')
  /\ (has_world m -> has_world m').

(** The state and every handle are kept. *)
Definition handles_kept (m m' : Manager) : Prop :=
  launchers_kept m m' /\ (has_application m -> has_application m').

#[export] Instance launchers_kept_preorder : Preorder launchers_kept.
Proof.
  split; unfold launchers_kept; [intuition|].
  intros m1 m2 m3 (S1 & V1 & W1) (S2 & V2 & W2). repeat split; auto; congruence.
Qed.

#[export] Instance handles_kept_preorder : Preorder handles_kept.
Proof.
  split; unfold handles_kept.
  - intros m. split; [apply pre_refl|auto].
  - intros m1 m2 m3 [L1 A1] [L2 A2]. split; [eapply pre_trans; eauto|auto].
Qed.

Ltac kept :=
  intros; unfold handles_kept, launchers_kept, has_application,
    has_visualization, has_world; simpl; repeat split; auto; discriminate.

Lemma callback_handles_kept (t : Spec.Trigger) (d : pyval) :
  t <> Spec.terminate_application -> t <> Spec.disconnect ->
  keeps handles_kept any_call False (callback_of t d).
Proof.
  intros H1 H2. destruct t; try contradiction; simpl.
  - apply on_connect_keeps; kept.
  - apply on_launch_world_keeps; kept.
  - apply on_prepare_visualization_keeps; kept.
  - apply on_run_application_keeps; kept.
  - apply on_pause_keeps; kept.
  - apply on_resume_keeps; kept.
  - apply on_terminate_visualization_keeps; kept.
  - apply on_terminate_universe_keeps; kept.
  - apply on_style_check_application_keeps; kept.
Qed.

Lemma on_terminate_application_launchers (d : pyval) :
  keeps launchers_kept any_call False (on_terminate_application d).
Proof. apply on_terminate_application_keeps; kept. Qed.

Lemma on_terminate_application_returns (d : pyval) (env : Env) (m : Manager) :
  exists m' tr, on_terminate_application d env m = Ret tt m' tr.
Proof.
  pose proof (on_terminate_application_launchers d env m) as Hk.
  unfold on_terminate_application in *. rewrite bind_get in *.
  destruct (application_process m); [|now eexists; eexists].
  unfold try_except in *.
  match goal with
  | |- context [match ?c env m with _ => _ end] => destruct (c env m) as [[] ? ?|? ? ?|?]
  end; simpl; try (eexists; eexists; reflexivity).
  now destruct Hk.
Qed.

Definition Trigger_eq_dec (a b : Spec.Trigger) : {a = b} + {a <> b}.
Proof. decide equality. Defined.

(** What the action of a trigger leaves, for the commit that follows. *)
Lemma callback_consistent (t : Spec.Trigger) (d : pyval) (env : Env)
    (m : Manager) :
  consistent m ->
  Spec.source t (state m) = true ->
  match callback_of t d env m with
  | Ret _ m' _ =>
      state m' = state m /\ consistent (set_state (Spec.dest t (state m)) m')
  | Raise _ m' _ => consistent m'
  | Exec _ => True
  end.
Proof.
  intros (Ca & Cv & Cw) Hsrc.
  destruct (Trigger_eq_dec t Spec.terminate_application) as [->|Hta].
  { destruct (on_terminate_application_returns d env m) as (m' & tr & Hr).
    pose proof (on_terminate_application_launchers d env m) as Hk.
    simpl callback_of. rewrite Hr in *. destruct Hk as [(Hs & Hv & Hw) _].
    split; [exact Hs|]. unfold consistent; simpl.
    destruct (state m); try discriminate; simpl in *;
      repeat split; auto; discriminate. }
  destruct (Trigger_eq_dec t Spec.disconnect) as [->|Hd].
  { simpl callback_of. now rewrite on_disconnect_trace. }
  pose proof (callback_handles_kept t d Hta Hd env m) as Hk.
  assert (Hpost : match callback_of t d env m with
                  | Ret _ m' _ =>
                      (t = Spec.launch_world -> has_world m')
                      /\ (t = Spec.prepare_visualization -> has_visualization m')
                      /\ (t = Spec.run_application -> has_application m')
                  | _ => True
                  end).
  { destruct t; simpl callback_of;
      try (destruct (_ d env m); auto; repeat split; discriminate).
    - pose proof (on_launch_world_launches d env m I) as Hp.
      destruct (on_launch_world d env m); auto. repeat split; auto; discriminate.
    - pose proof (on_prepare_visualization_prepares d env m I) as Hp.
      destruct (on_prepare_visualization d env m); auto.
      repeat split; auto; discriminate.
    - pose proof (on_run_application_spawns d env m I) as Hp.
      destruct (on_run_application d env m); auto.
      repeat split; auto; discriminate. }
  destruct (callback_of t d env m) as [[] m' tr|e m' tr|tr]; auto.
  - destruct Hk as [[(Hs & Hv & Hw) Ha] _].
    destruct Hpost as (Pw & Pv & Pa).
    split; [exact Hs|]. unfold consistent; simpl.
    destruct t; try contradiction;
      destruct (state m); try discriminate; simpl in *;
      repeat split; auto; discriminate.
  - destruct Hk as [[(Hs & Hv & Hw) Ha] _].
    unfold consistent. rewrite Hs. repeat split; auto.
Qed.

Lemma declared_event (name : text) :
  has_event transitions name = true -> is_auto name = false ->
  exists t, name = Spec.name t.
Proof.
  unfold has_event, events, is_auto. rewrite existsb_app.
  intros He Ha. rewrite Ha in He. rewrite orb_false_l in He.
  apply existsb_exists in He as (r & Hin & Hr).
  apply text_eqb_eq in Hr. subst name. simpl in Hin.
  repeat (destruct Hin as [<-|Hin];
          [first [ now exists Spec.connect | now exists Spec.launch_world
                 | now exists Spec.prepare_visualization
                 | now exists Spec.run_application | now exists Spec.pause
                 | now exists Spec.resume
                 | now exists Spec.terminate_application
                 | now exists Spec.terminate_visualization
                 | now exists Spec.terminate_universe
                 | now exists Spec.disconnect | now exists Spec.style_check ]|]).
  contradiction.
Qed.

Lemma consistent_set_state (s : State) (m : Manager) :
  state m = s -> consistent (set_state s m) -> consistent m.
Proof. intros <-. unfold consistent; simpl. auto. Qed.

Lemma trigger_consistent (name : text) (d : pyval) (env : Env) (m : Manager) :
  consistent m -> is_auto name = false ->
  match trigger_ name d env m with
  | Ret _ m' _ | Raise _ m' _ => consistent m'
  | Exec _ => True
  end.
Proof.
  intros Hc Ha.
  destruct (has_event transitions name) eqn:He.
  2:{ unfold trigger_, fire. rewrite He. exact Hc. }
  destruct (declared_event name He Ha) as (t & ->).
  pose proof (table_lookup t (state m)) as Hl.
  destruct (Spec.source t (state m)) eqn:Hsrc.
  2:{ destruct (fire_refused _ d env m He Hl) as (msg & ->). exact Hc. }
  destruct (table_row t) as (r & Hr & _ & Hd). rewrite Hr in Hl.
  rewrite (fire_executes _ d env m r [] He Hl).
  rewrite <- (action_before t d r Hr), action_callback.
  pose proof (callback_consistent t d env m Hc Hsrc) as Hk.
  unfold bind at 1.
  destruct (callback_of t d env m) as [[] m' tr|e m' tr|tr]; simpl; auto.
  destruct Hk as [Hs Hk].
  destruct (Trigger_eq_dec t Spec.style_check) as [->|Hn].
  - injection Hr as <-. simpl.
    apply (consistent_set_state (state m)); auto.
  - rewrite (Hd Hn (state m)), commit_registered. simpl. exact Hk.
Qed.

Lemma handle_consistent (msg : message) (env : Env) (m : Manager) :
  consistent m -> is_auto (command msg) = false ->
  match handle msg env m with
  | Ret _ m' _ => consistent m'
  | Raise _ _ _ => False
  | Exec _ => True
  end.
Proof.
  intros Hc Ha. unfold handle, try_except, process_message.
  destruct (text_eqb (command msg) (txt "gui")).
  - rewrite bind_get. destruct (gui_server m); simpl; [|exact Hc].
    unfold Server_send, bind, ask, do.
    destruct (current_client env) as [c|]; simpl; [|exact Hc].
    destruct (raises env _); simpl; exact Hc.
  - pose proof (trigger_consistent (command msg)
                  (if truthy (data msg) then data msg else PNone) env m Hc Ha)
      as Ht.
    unfold bind at 1.
    destruct (trigger_ _ _ env m) as [[] m' tr|e m' tr|tr]; simpl; auto.
Qed.

(** X9: as long as no [to_<state>] command is used, the handles that the
    actions of a state dereference are set: an application process in
    [application_running] and [paused], a visualization launcher from
    [visualization_ready] on, a world launcher from [world_ready] on.
    The loop keeps this from any manager that has it, whatever the
    collaborators do. *)
Theorem handles_match_the_state (queue : list message) (env : Env)
    (m : Manager) :
  consistent m ->
  Forall (fun msg => is_auto (command msg) = false) queue ->
  match start queue env m with
  | Ret _ m' _ => consistent m'
  | Raise _ _ _ => False
  | Exec _ => True
  end.
Proof.
  intros Hc Hq. revert m Hc.
  induction Hq as [|msg queue Ha _ IH]; intros m Hc; simpl; [exact Hc|].
  pose proof (handle_consistent msg env m Hc Ha) as Hh.
  unfold bind. destruct (handle msg env m) as [[] m' tr|e m' tr|tr]; auto.
  specialize (IH m' Hh). now destruct (start queue env m').
Qed.

Lemma handles_match_the_state_witness :
  match start [connect_command; pause_command] quiet fresh with
  | Ret _ m' _ => consistent m'
  | Raise _ _ _ => False
  | Exec _ => True
  end.
Proof.
  apply (handles_match_the_state [connect_command; pause_command] quiet fresh).
  - unfold consistent; simpl. repeat split; discriminate.
  - repeat constructor.
Defined.

(** ** The two substitutions *)

Lemma replace_absent (old new s : text) :
  contains old s = false -> replace old new s = s.
Proof.
  unfold replace. induction s as [|c s IH]; simpl; [reflexivity|].
  intros H. apply orb_false_elim in H as [Hp Hs].
  simpl in Hp. rewrite Hp. now rewrite IH.
Qed.

(** X10: code that has neither [from GUI import GUI] nor
    [from HAL import HAL] reaches the linter as it was submitted. *)
Theorem code_without_legacy_imports_is_kept (c : text) (env : Env)
    (m : Manager) :
  contains (txt "from GUI import GUI") c = false ->
  contains (txt "from HAL import HAL") c = false ->
  backwards_compatible (PStr c) env m = Ret c m [].
Proof.
  intros Hg Hh. unfold backwards_compatible.
  now rewrite (replace_absent _ _ c Hg), (replace_absent _ _ c Hh).
Qed.

Lemma code_without_legacy_imports_is_kept_witness :
  backwards_compatible (PStr sample_loop) quiet fresh = Ret sample_loop fresh [].
Proof.
  apply (code_without_legacy_imports_is_kept sample_loop quiet fresh);
    vm_compute; reflexivity.
Defined.

(** X11: the instrumentation fails exactly on the codes in which the
    pattern finds no loop header, always with the [AttributeError] of
    [None.end()]; on every other code it returns. *)
Theorem add_frequency_control_fails_without_header (code : text) :
  (add_frequency_control code = inl none_has_no_end <-> ~ has_loop_header code)
  /\ (forall e, add_frequency_control code = inl e -> e = none_has_no_end)
  /\ (has_loop_header code <-> exists out, add_frequency_control code = inr out).
Proof.
  assert (Hyes : has_loop_header code ->
                 exists out, add_frequency_control code = inr out).
  { intros (u & t & Hs & Ht). unfold add_frequency_control, search.
    destruct (search_from infinite_loop_re _ 0) as [[b e]|] eqn:E;
      [now eexists|].
    exfalso. rewrite Hs in E. revert E. now apply search_from_complete. }
  assert (Herr : forall e, add_frequency_control code = inl e ->
                           e = none_has_no_end).
  { intros e. unfold add_frequency_control.
    destruct (search infinite_loop_re _) as [[b e']|]; [discriminate|].
    now intros [= <-]. }
  repeat split.
  - intros Hf Hh. destruct (Hyes Hh) as (out & Ho). congruence.
  - apply add_frequency_control_no_header.
  - exact Herr.
  - exact Hyes.
  - intros (out & Ho) .
    destruct (search infinite_loop_re (frequency_control_code_imports ++ code))
      as [[b e]|] eqn:E.
    + apply search_from_sound in E as (u & w & v & Hs & Hm & _).
      exists u, (w ++ v). split; [exact Hs|]. now exists w, v.
    + unfold add_frequency_control in Ho. rewrite E in Ho. discriminate.
Qed.

(** ** The relay is for [gazebo_rae] *)

Definition starts_relay (c : call) : bool :=
  match c with Server_new _ | Server_start _ => true | _ => false end.

Definition relay_2303 : Server := {| port := 2303 |}.

(** X12: [prepare_visualization] brings up the relay for the kind
    ["gazebo_rae"] and for no other: for any other kind the attribute
    [gui_server] is left as it was and no relay is built or started; for
    ["gazebo_rae"], when the four calls go through, the relay is built on
    port 2303 after the launcher has run, kept in [gui_server] and
    started. *)
Theorem relay_only_for_gazebo_rae (d : pyval) (env : Env) (m : Manager) :
  (eq_str d (txt "gazebo_rae") = false ->
   match on_prepare_visualization d env m with
   | Ret _ m' tr | Raise _ m' tr =>
       gui_server m' = gui_server m
       /\ forallb (fun c => negb (starts_relay c)) tr = true
   | Exec _ => False
   end)
  /\ (eq_str d (txt "gazebo_rae") = true ->
      let v := {| visualization := d |} in
      raises env (LauncherVisualization_new d) = None ->
      raises env (LauncherVisualization_run v) = None ->
      raises env (Server_new 2303) = None ->
      raises env (Server_start relay_2303) = None ->
      on_prepare_visualization d env m =
        Ret tt (set_gui_server (Some relay_2303)
                  (set_visualization_launcher (Some v) m))
          [LauncherVisualization_new d; LauncherVisualization_run v;
           Server_new 2303; Server_start relay_2303]).
Proof.
  split.
  - intros Hd. unfold on_prepare_visualization. rewrite Hd.
    unfold bind, do_ret, do, modify, ret.
    destruct (raises env (LauncherVisualization_new d)); simpl; [auto|].
    destruct (raises env (LauncherVisualization_run _)); simpl; auto.
  - intros Hd v H1 H2 H3 H4. unfold on_prepare_visualization. rewrite Hd.
    unfold bind, do_ret, do, modify, ret. rewrite H1. simpl.
    fold v. rewrite H2. simpl. rewrite H3. simpl.
    fold relay_2303. rewrite H4. reflexivity.
Qed.

Lemma relay_only_for_gazebo_rae_witness :
  on_prepare_visualization (PStr (txt "gazebo_rae")) quiet (in_state world_ready) =
    Ret tt (set_gui_server (Some relay_2303)
              (set_visualization_launcher
                 (Some {| visualization := PStr (txt "gazebo_rae") |})
                 (in_state world_ready)))
      [LauncherVisualization_new (PStr (txt "gazebo_rae"));
       LauncherVisualization_run {| visualization := PStr (txt "gazebo_rae") |};
       Server_new 2303; Server_start relay_2303].
Proof.
  apply (proj2 (relay_only_for_gazebo_rae (PStr (txt "gazebo_rae")) quiet
                  (in_state world_ready)));
    reflexivity.
Defined.

(** ** Archives that are not data URLs *)

Lemma subscript_in (d : pyval) (k : text) (v : pyval) :
  subscript d k = inr v -> py_in k d = inr true.
Proof.
  destruct d as [|s|l]; simpl; try discriminate.
  destruct (lookup k l); [reflexivity|discriminate].
Qed.

(** X13: a [launch_world] payload whose [zip] is a string that does not
    start with [data:] leaves the local [zip_file] unbound: once the
    validator has accepted the payload, the destination archive is opened
    for writing and the action then fails with [UnboundLocalError],
    which [except ValueError] does not catch: no launcher is built and
    the manager is unchanged. *)
Theorem launch_world_zip_without_data_url (d : pyval) (env : Env)
    (m : Manager) (z n : text) :
  subscript d (txt "zip") = inr (PStr z) ->
  is_prefix (txt "data:") z = false ->
  subscript d (txt "name") = inr (PStr n) ->
  raises env (ConfigurationManager_validate d) = None ->
  let archive := txt "/workspace/worlds/" ++ n ++ txt ".zip" in
  raises env (fs_open archive (txt "wb")) = None ->
  on_launch_world d env m =
    Raise (UnboundLocalError (txt "zip_file")) m
      [ConfigurationManager_validate d; fs_open archive (txt "wb")].
Proof.
  intros Hz Hp Hn Hv archive Ho.
  unfold on_launch_world, try_except, prepare_custom_universe, write_decoded,
    data_url_body, concat_str, validation_failed, bind, do_ret, do, lift,
    ret, raise.
  rewrite Hv, (subscript_in d _ _ Hz), Hz. cbv beta iota.
  rewrite Hp, Hn. cbv beta iota.
  rewrite <- app_assoc. fold archive. rewrite Ho. reflexivity.
Qed.

Definition plain_zip : pyval :=
  PDict [(txt "name", PStr (txt "arena"));
         (txt "zip", PStr (txt "UEsDBBQAAAAI"))].

Lemma launch_world_zip_without_data_url_witness :
  on_launch_world plain_zip quiet (in_state connected) =
    Raise (UnboundLocalError (txt "zip_file")) (in_state connected)
      [ConfigurationManager_validate plain_zip;
       fs_open (txt "/workspace/worlds/" ++ txt "arena" ++ txt ".zip") (txt "wb")].
Proof.
  apply (launch_world_zip_without_data_url plain_zip quiet (in_state connected)
           (txt "UEsDBBQAAAAI") (txt "arena")); reflexivity.
Defined.

(** ** A packaged application that fails to start *)

(** X14: any error raised while a [bt-studio] application is started is
    swallowed by the [try] around it, and the payload is then read as
    inline code: with no [template] key the command fails with
    [KeyError('template')] instead of the error of the start, after the
    calls of the failed start and with whatever it left in the
    manager. *)
Theorem packaged_start_error_is_swallowed (d t : pyval) (env : Env)
    (m m' : Manager) (e : exn) (tr : trace) :
  subscript d (txt "type") = inr t ->
  eq_str t (txt "bt-studio") = true ->
  run_bt_studio_application d env m = Raise e m' tr ->
  subscript d (txt "template") = inl (KeyError (txt "template")) ->
  on_run_application d env m = Raise (KeyError (txt "template")) m' tr.
Proof.
  intros Ht Hb Hr Hk. unfold on_run_application.
  assert (Hs : try_except
                 (bt <- is_bt_studio d ;;
                  if bt then run_bt_studio_application d ;; ret true
                  else ret false)
                 (fun _ => ret false) env m = Ret false m' tr).
  { unfold try_except, is_bt_studio, bind at 1 2, lift. rewrite Ht. simpl.
    rewrite Hb. unfold bind. rewrite Hr. simpl. now rewrite app_nil_r. }
  rewrite (bind_ret_run _ _ _ _ _ _ _ Hs), Hk. simpl.
  now rewrite app_nil_r.
Qed.

Definition packaged_without_data_url : pyval :=
  PDict [(txt "type", PStr (txt "bt-studio"));
         (txt "code", PStr (txt "UEsDBBQAAAAI"))].

Lemma packaged_start_error_is_swallowed_witness :
  on_run_application packaged_without_data_url quiet
    (in_state visualization_ready)
  = Raise (KeyError (txt "template")) (in_state visualization_ready)
      [fs_open (txt "/workspace/code/app.zip") (txt "wb")].
Proof.
  apply (packaged_start_error_is_swallowed packaged_without_data_url
           (PStr (txt "bt-studio")) quiet (in_state visualization_ready)
           (in_state visualization_ready) (UnboundLocalError (txt "code")));
    reflexivity.
Defined.

(** ** Which files a style check touches *)

(** A device of [/dev/pts] with a digit name, other than
    [/dev/pts/0]. *)
Definition is_console (p : text) : bool :=
  is_prefix (txt "/dev/pts/") p
  && isdigit (skipn 9 p)
  && negb (text_eqb p dev_pts_0).

Definition console_only (c : call) : bool :=
  match c with
  | fs_open p _ | fs_write p _ => is_console p
  | _ => true
  end.

(** Every call of a run is accepted by [q], and the value returned has
    [R]. *)
Definition only {A} (q : call -> bool) (c : M A) (R : A -> Prop) : Prop :=
  forall env m,
    forallb q (trace_of (c env m)) = true
    /\ match c env m with Ret a _ _ => R a | _ => True end.

Lemma only_bind {A B} (q : call -> bool) (c : M A) (k : A -> M B)
    (R : A -> Prop) (Q : B -> Prop) :
  only q c R -> (forall a, R a -> only q (k a) Q) -> only q (bind c k) Q.
Proof.
  intros Hc Hk env m. unfold bind. destruct (Hc env m) as [Hq Hr].
  destruct (c env m) as [a m' tr|e m' tr|tr]; simpl in *; auto.
  destruct (Hk a Hr env m') as [Hq' Hr'].
  destruct (k a env m'); simpl in *; rewrite forallb_app, Hq, Hq'; auto.
Qed.

Lemma only_silent {A} (q : call -> bool) (c : M A) (R : A -> Prop) :
  (forall env m, trace_of (c env m) = []) ->
  (forall env m, match c env m with Ret a _ _ => R a | _ => True end) ->
  only q c R.
Proof. intros Ht Hr env m. rewrite Ht. split; [reflexivity|apply Hr]. Qed.

Lemma only_do_ret {A} (q : call -> bool) (c : call) (v : Env -> A) :
  q c = true -> only q (do_ret c v) (fun _ => True).
Proof.
  intros Hc env m. unfold do_ret.
  destruct (raises env c); simpl; rewrite Hc; auto.
Qed.

Lemma probe_consoles_only (l : list text) :
  Forall (fun p => is_prefix (txt "/dev/pts/") p && isdigit (skipn 9 p) = true) l ->
  only console_only (probe_consoles l)
    (Forall (fun p => is_console p = true)).
Proof.
  induction 1 as [|c l Hc _ IH]; simpl.
  - intros env m. simpl. auto.
  - destruct (text_eqb c dev_pts_0) eqn:E.
    + apply (only_bind _ _ _ (fun ok => ok = false)).
      * apply only_silent; intros; reflexivity.
      * intros ok ->. apply (only_bind _ _ _ _ _ IH).
        intros cs Hcs. apply only_silent; intros; [reflexivity|exact Hcs].
    + assert (Hcon : is_console c = true)
        by (unfold is_console; now rewrite Hc, E).
      apply (only_bind _ _ _ (fun _ => True)).
      * intros env m. unfold try_except, bind, do.
        destruct (raises env (fs_open c (txt "w"))); simpl; rewrite ?Hcon; auto.
        destruct (raises env (fs_write c [])); simpl; rewrite ?Hcon; auto.
      * intros ok _. apply (only_bind _ _ _ _ _ IH).
        intros cs Hcs. apply only_silent; intros; [reflexivity|].
        simpl. destruct ok; auto.
Qed.

Lemma write_consoles_only (errors : text) (l : list text) :
  Forall (fun p => is_console p = true) l ->
  only console_only (write_consoles errors l) (fun _ => True).
Proof.
  induction 1 as [|c l Hc _ IH]; simpl.
  - intros env m. simpl. auto.
  - apply (only_bind _ _ _ (fun _ => True)).
    + intros env m. unfold do. destruct (raises env _); simpl; rewrite Hc; auto.
    + intros _ _. apply (only_bind _ _ _ (fun _ => True)); [|intros; exact IH].
      intros env m. unfold do. destruct (raises env _); simpl; rewrite Hc; auto.
Qed.

Lemma pts_candidates (devs : list text) :
  Forall (fun p => is_prefix (txt "/dev/pts/") p && isdigit (skipn 9 p) = true)
    (map (fun dev => txt "/dev/pts/" ++ dev) (filter isdigit devs)).
Proof.
  apply Forall_forall. intros p Hp.
  apply in_map_iff in Hp as (dev & <- & Hd).
  apply filter_In in Hd as [_ Hd]. simpl. exact Hd.
Qed.

Lemma find_docker_console_only :
  only console_only find_docker_console
    (Forall (fun p => is_console p = true)).
Proof.
  unfold find_docker_console.
  apply (only_bind _ _ _ (fun _ => True)); [now apply only_do_ret|].
  intros devs _. apply probe_consoles_only, pts_candidates.
Qed.

(** X15: a style check opens and writes no file but the devices of
    [/dev/pts] with a digit name, and never [/dev/pts/0]; this holds on
    every payload and whatever fails. *)
Theorem style_check_touches_consoles_only (d : pyval) (env : Env)
    (m : Manager) :
  forallb console_only (trace_of (on_style_check_application d env m)) = true.
Proof.
  assert (H : only console_only (on_style_check_application d) (fun _ => True)).
  { unfold on_style_check_application.
    apply (only_bind _ _ _ (fun _ => True)).
    { apply only_silent; intros env0 m0; [|now destruct (try_except _ _ env0 m0)].
      unfold try_except, is_bt_studio, bind, lift.
      destruct (subscript d (txt "type")); reflexivity. }
    intros [|] _; [apply only_silent; intros; [reflexivity|exact I]|].
    apply (only_bind _ _ _ (fun _ => True)).
    { apply only_silent; intros env0 m0;
        destruct (subscript d (txt "exercise_id")); simpl; auto. }
    intros exercise_id _. apply (only_bind _ _ _ (fun _ => True)).
    { apply only_silent; intros env0 m0;
        destruct (subscript d (txt "code")); simpl; auto. }
    intros code _. apply (only_bind _ _ _ (fun _ => True)).
    { apply only_silent; intros env0 m0; destruct code; simpl; auto. }
    intros c _. apply (only_bind _ _ _ (fun _ => True));
      [now apply only_do_ret|].
    intros errors _. apply (only_bind _ _ _ _ _ find_docker_console_only).
    intros cs Hcs. apply (only_bind _ _ _ (fun _ => True)).
    { now apply write_consoles_only. }
    intros _ _. apply only_silent; intros; [reflexivity|exact I]. }
  apply H.
Qed.

(** ** The relay: [Server] of [compatibility/server.py]

    The attribute that the handlers of the websocket server share with
    [send].  Each handler runs with [client_lock] held, so a history of
    the relay is a sequence of handler runs. *)
Module Relay.

Definition client := N.

Record relay : Type := { current_client : option client }.

(** [Server.__init__]. *)
Definition init : relay := {| current_client := None |}.

(** [Server.on_open]. *)
Definition on_open (c : client) (r : relay) : relay :=
  {| current_client := Some c |}.

(** [Server.on_close]: [client == self.current_client]. *)
Definition on_close (c : client) (r : relay) : relay :=
  match current_client r with
  | Some c' => if N.eqb c c' then {| current_client := None |} else r
  | None => r
  end.

(** [Server.send]: the frames handed to [server.send_message]. *)
Definition send (d : pyval) (r : relay) : list (client * pyval) :=
  match current_client r with
  | Some c => [(c, d)]
  | None => []
  end.

Inductive event : Type :=
| opened (c : client)
| closed (c : client)
| sent (d : pyval).

Definition step (r : relay) (e : event) : relay :=
  match e with
  | opened c => on_open c r
  | closed c => on_close c r
  | sent _ => r
  end.

Definition run (events : list event) (r : relay) : relay :=
  fold_left step events r.

(** Nothing in [e] takes the place of [c] or removes it. *)
Definition leaves (c : client) (e : event) : Prop :=
  match e with
  | opened _ => False
  | closed c' => c' <> c
  | sent _ => True
  end.

End Relay.

Lemma relay_run_snoc (events : list Relay.event) (e : Relay.event)
    (r : Relay.relay) :
  Relay.run (events ++ [e]) r = Relay.step (Relay.run events r) e.
Proof. unfold Relay.run. now rewrite fold_left_app. Qed.

Lemma relay_stays (c : Relay.client) (post : list Relay.event) :
  Forall (Relay.leaves c) post ->
  forall r, Relay.current_client r = Some c ->
            Relay.current_client (Relay.run post r) = Some c.
Proof.
  induction 1 as [|e post He _ IH]; intros r Hr; [exact Hr|].
  apply IH. destruct e as [c'|c'|d]; simpl in *; auto; [contradiction|].
  unfold Relay.on_close. rewrite Hr.
  destruct (N.eqb_spec c' c); [contradiction|exact Hr].
Qed.

(** X16: after any history of connections, the current client of the
    relay is [c] exactly when [c] is the client that connected last and
    it has not left since.  So when the last client to connect leaves,
    the relay has no current client, even if earlier clients are still
    connected. *)
Theorem relay_current_client (events : list Relay.event) (c : Relay.client) :
  Relay.current_client (Relay.run events Relay.init) = Some c
  <-> exists pre post,
        events = pre ++ Relay.opened c :: post
        /\ Forall (Relay.leaves c) post.
Proof.
  split.
  - induction events as [|e events IH] using rev_ind; [discriminate|].
    rewrite relay_run_snoc. destruct e as [c'|c'|d]; simpl.
    + intros [= ->]. exists events, []. split; [reflexivity|constructor].
    + unfold Relay.on_close.
      destruct (Relay.current_client (Relay.run events Relay.init))
        as [c''|] eqn:E; [|intros Hc; congruence].
      destruct (N.eqb_spec c' c''); [simpl; discriminate|].
      intros Hc. rewrite Hc in E. injection E as <-.
      destruct (IH eq_refl) as (pre & post & -> & Hpost).
      exists pre, (post ++ [Relay.closed c']). split.
      * now rewrite <- app_assoc.
      * apply Forall_app. split; [exact Hpost|].
        constructor; [|constructor]. simpl. congruence.
    + intros Hc. destruct (IH Hc) as (pre & post & -> & Hpost).
      exists pre, (post ++ [Relay.sent d]). split.
      * now rewrite <- app_assoc.
      * apply Forall_app. split; [exact Hpost|]. now repeat constructor.
  - intros (pre & post & -> & Hpost).
    unfold Relay.run. rewrite fold_left_app. simpl.
    now apply relay_stays.
Qed.

(** ** Data URLs *)

Lemma is_prefix_app (p x : text) : is_prefix p (p ++ x) = true.
Proof. induction p as [|c p IH]; simpl; [reflexivity|]. now rewrite N.eqb_refl. Qed.

Lemma is_prefix_short (p x y : text) :
  List.length p <= List.length x -> is_prefix p (x ++ y) = is_prefix p x.
Proof.
  revert x; induction p as [|c p IH]; intros [|d x] Hl; simpl in *;
    try reflexivity; [lia|].
  rewrite IH by lia. reflexivity.
Qed.

Lemma after_first_step (sep : text) (c : char) (s : text) :
  after_first sep (c :: s) =
    if is_prefix sep (c :: s) then skipn (List.length sep) (c :: s)
    else after_first sep s.
Proof. reflexivity. Qed.

(** [partition] cuts at the first separator: when no occurrence of [sep]
    starts in [a], what follows [a ++ sep] is returned. *)
Lemma after_first_found (sep a b : text) :
  sep <> [] ->
  contains sep (a ++ firstn (List.length sep - 1) sep) = false ->
  after_first sep (a ++ sep ++ b) = b.
Proof.
  intros Hne. induction a as [|x a IH]; intros Hc.
  - simpl app. destruct sep as [|c sep]; [contradiction|].
    change ((c :: sep) ++ b) with (c :: (sep ++ b)).
    rewrite after_first_step.
    change (c :: (sep ++ b)) with ((c :: sep) ++ b).
    now rewrite is_prefix_app, skipn_length_app.
  - change ((x :: a) ++ sep ++ b) with (x :: (a ++ sep ++ b)).
    rewrite after_first_step.
    change ((x :: a) ++ firstn (List.length sep - 1) sep)
      with (x :: (a ++ firstn (List.length sep - 1) sep)) in Hc.
    simpl contains in Hc. apply orb_false_elim in Hc as [Hp Hc].
    assert (Hnot : is_prefix sep (x :: a ++ sep ++ b) = false).
    { rewrite <- (firstn_skipn (List.length sep - 1) sep) at 2.
      rewrite <- app_assoc.
      change (x :: a ++ firstn (List.length sep - 1) sep
                     ++ skipn (List.length sep - 1) sep ++ b)
        with ((x :: a) ++ firstn (List.length sep - 1) sep
                ++ skipn (List.length sep - 1) sep ++ b).
      rewrite app_assoc.
      rewrite is_prefix_short; [exact Hp|].
      rewrite length_app, length_firstn. simpl. lia. }
    rewrite Hnot. now apply IH.
Qed.

(** The body of a data URL whose header does not hold the separator
    twice. *)
Lemma data_url_body_found (mime body : text) (env : Env) (m : Manager) :
  contains (txt "base64,") (txt "data:" ++ mime ++ txt "base64") = false ->
  data_url_body (PStr (txt "data:" ++ mime ++ txt "base64," ++ body)) env m
  = Ret (Some body) m [].
Proof.
  intros Hc. unfold data_url_body.
  rewrite is_prefix_app.
  rewrite (app_assoc (txt "data:") mime).
  rewrite (after_first_found (txt "base64,") (txt "data:" ++ mime) body);
    [reflexivity|discriminate|].
  now rewrite <- app_assoc.
Qed.

(** X17: a world sent as a data URL, when every call goes through: the
    archive is the body of the URL after [base64,], decoded; it is
    written to [/workspace/worlds/<name>.zip]; the folder
    [/workspace/worlds/<name>/] is created when it does not exist; and
    the archive that was just written is the one extracted, into that
    folder.  The manager is not touched. *)
Theorem custom_universe_is_unpacked (d : pyval) (env : Env) (m : Manager)
    (mime body n : text) :
  subscript d (txt "zip")
  = inr (PStr (txt "data:" ++ mime ++ txt "base64," ++ body)) ->
  contains (txt "base64,") (txt "data:" ++ mime ++ txt "base64") = false ->
  subscript d (txt "name") = inr (PStr n) ->
  let archive := txt "/workspace/worlds/" ++ n ++ txt ".zip" in
  let folder := txt "/workspace/worlds/" ++ n ++ txt "/" in
  let unpack :=
    [fs_open archive (txt "wb"); base64_b64decode body;
     fs_write archive (decoded env body); os_path_exists folder]
    ++ (if path_exists env folder then [] else [os_makedirs folder])
    ++ [zip_extractall archive (folder ++ txt "/")] in
  (forall c, In c unpack -> raises env c = None) ->
  prepare_custom_universe d env m = Ret tt m unpack.
Proof.
  intros Hz Hc Hn archive folder unpack Hok.
  unfold prepare_custom_universe. rewrite Hz, Hn. simpl lift.
  rewrite bind_ret_left.
  rewrite (bind_ret_run _ _ _ _ _ _ _ (data_url_body_found mime body env m Hc)).
  rewrite after_nil, bind_ret_left. unfold concat_str. rewrite bind_ret_left.
  assert (Ha : (txt "/workspace/worlds/" ++ n) ++ txt ".zip" = archive)
    by (unfold archive; now rewrite <- app_assoc).
  assert (Hf : (txt "/workspace/worlds/" ++ n) ++ txt "/" = folder)
    by (unfold folder; now rewrite <- app_assoc).
  rewrite Ha, Hf.
  assert (H1 : raises env (fs_open archive (txt "wb")) = None)
    by (apply Hok; now left).
  assert (H2 : raises env (base64_b64decode body) = None)
    by (apply Hok; right; now left).
  assert (H3 : raises env (fs_write archive (decoded env body)) = None)
    by (apply Hok; right; right; now left).
  assert (H4 : raises env (os_path_exists folder) = None)
    by (apply Hok; right; right; right; now left).
  assert (H5 : raises env (zip_extractall archive (folder ++ txt "/")) = None).
  { apply Hok. unfold unpack. apply in_or_app. right. apply in_or_app. right.
    now left. }
  assert (Hw : write_decoded archive "zip_file" (Some body) env m
               = Ret tt m [fs_open archive (txt "wb"); base64_b64decode body;
                           fs_write archive (decoded env body)]).
  { unfold write_decoded.
    rewrite (bind_ret_run _ _ _ _ _ _ _ (do_ok _ env m H1)).
    rewrite (bind_ret_run _ _ _ _ _ _ _ (do_ret_ok _ _ env m H2)).
    rewrite (do_ok _ env m H3). reflexivity. }
  rewrite (bind_ret_run _ _ _ _ _ _ _ Hw).
  rewrite (bind_ret_run _ _ _ _ _ _ _ (do_ret_ok _ _ env m H4)).
  unfold unpack. destruct (path_exists env folder) eqn:Hex.
  - rewrite bind_ret_left, (do_ok _ env m H5). reflexivity.
  - assert (H6 : raises env (os_makedirs folder) = None).
    { apply Hok. unfold unpack. try rewrite Hex. simpl. auto 10. }
    rewrite (bind_ret_run _ _ _ _ _ _ _ (do_ok _ env m H6)).
    rewrite (do_ok _ env m H5). reflexivity.
Qed.

Definition arena_zip : pyval :=
  PDict [(txt "name", PStr (txt "arena"));
         (txt "zip",
          PStr (txt "data:" ++ txt "application/zip;" ++ txt "base64,"
                  ++ txt "UEsDBBQAAAAI"))].

Lemma custom_universe_is_unpacked_witness :
  prepare_custom_universe arena_zip quiet fresh =
    Ret tt fresh
      [fs_open (txt "/workspace/worlds/arena.zip") (txt "wb");
       base64_b64decode (txt "UEsDBBQAAAAI");
       fs_write (txt "/workspace/worlds/arena.zip") (txt "UEsDBBQAAAAI");
       os_path_exists (txt "/workspace/worlds/arena/");
       os_makedirs (txt "/workspace/worlds/arena/");
       zip_extractall (txt "/workspace/worlds/arena.zip")
         (txt "/workspace/worlds/arena//")].
Proof.
  apply (custom_universe_is_unpacked arena_zip quiet fresh
           (txt "application/zip;") (txt "UEsDBBQAAAAI") (txt "arena"));
    reflexivity.
Defined.

(** ** Code that passes the linter *)

(** What [on_run_application] does with code that the linter accepts. *)
Definition install (application_folder code_path code : text) : M unit :=
  code <- lift (add_frequency_control code) ;;
  do (fs_open academy_py (txt "w")) ;;
  do (fs_write academy_py code) ;;
  do (shutil_copytree application_folder (txt "/workspace/code")) ;;
  spawn_application [txt "python3"; code_path] ;;
  unpause_sim.

(** The file that is run: the template's [exercise.py] when the template
    has one, the student's file otherwise. *)
Definition entry_point (env : Env) (m : Manager) (tpl : text) : text :=
  if path_isfile env (template_folder m tpl ++ txt "exercise.py")
  then txt "/workspace/code/exercise.py" else academy_py.

Lemma on_run_application_accepted (d : pyval) (env : Env) (m : Manager)
    (tpl c : text) (exercise_id : pyval) :
  inline d ->
  subscript d (txt "template") = inr (PStr tpl) ->
  subscript d (txt "exercise_id") = inr exercise_id ->
  subscript d (txt "code") = inr (PStr c) ->
  let probe := os_path_isfile (template_folder m tpl ++ txt "exercise.py") in
  let linted := linter_evaluate_code (compatible c) exercise_id None in
  raises env probe = None ->
  raises env linted = None ->
  lint env (compatible c) exercise_id None = [] ->
  on_run_application d env m =
    after [probe; linted]
      (install (template_folder m tpl) (entry_point env m tpl) (compatible c)
         env m).
Proof.
  intros Hi Ht Hex Hc probe linted Hp Hl He.
  unfold on_run_application.
  rewrite (bind_ret_run _ _ _ _ _ _ _ (not_packaged d env m Hi)).
  rewrite after_nil, Ht, Hex, Hc. simpl lift.
  rewrite !bind_ret_left, bind_get. cbv iota beta.
  rewrite bind_ret_left. fold (template_folder m tpl).
  rewrite (bind_ret_run _ _ _ _ _ _ _ (do_ret_ok _ _ env m Hp)).
  change (backwards_compatible (PStr c)) with (@ret text (compatible c)).
  rewrite bind_ret_left.
  rewrite (bind_ret_run _ _ _ _ _ _ _ (do_ret_ok _ _ env m Hl)).
  rewrite He. change (text_eqb [] []) with true. cbv iota.
  now rewrite after_after.
Qed.

Lemma handle_reports (msg : message) (env : Env) (m m' : Manager) (e : exn)
    (tr : trace) :
  text_eqb (command msg) (txt "gui") = false ->
  trigger_ (command msg) (if truthy (data msg) then data msg else PNone) env m
  = Raise e m' tr ->
  handle msg env m = Ret tt m' (tr ++ error_response msg e).
Proof.
  intros Hg Ht. unfold handle, try_except, process_message.
  rewrite Hg. unfold bind at 1. rewrite Ht. reflexivity.
Qed.

Lemma run_application_fires (d : pyval) (env : Env) (m : Manager) :
  Spec.source Spec.run_application (state m) = true ->
  trigger_ (txt "run_application") d env m =
    match on_run_application d env m with
    | Ret _ m' tr =>
        Ret tt (set_state application_running m')
          (tr ++ [state_changed application_running])
    | Raise e m' tr => Raise e m' tr
    | Exec tr => Exec tr
    end.
Proof.
  intros Hsrc.
  rewrite (fire_executes (txt "run_application") d env m run_row []
             ltac:(vm_compute; reflexivity)
             (run_application_lookup (state m) Hsrc)).
  change (callbacks method (before run_row) d env m)
    with ((on_run_application d ;; ret tt) env m).
  unfold bind at 1.
  destruct (on_run_application d env m) as [[] m' tr|e m' tr|tr];
    [|reflexivity|reflexivity].
  change (after tr (ret tt env m')) with (Ret tt m' (tr ++ [])).
  change (dest run_row) with (Some (state_name application_running)).
  cbv iota. rewrite app_nil_r.
  now rewrite (commit_registered (state m) application_running m' env).
Qed.

(** X18: a [run_application] command with inline code that passes the
    linter and has a loop header, when every call goes through.  The
    instrumented code is written to [/workspace/code/academy.py]; only
    then is the template folder copied over [/workspace/code]; the process
    started is the template's [exercise.py] when the template has one and
    [academy.py] otherwise; the simulation is unpaused; the new process is
    recorded, the state becomes [application_running] and the command is
    acknowledged.  Nothing else is called. *)
Theorem run_application_installs_and_starts (msg : message) (env : Env)
    (m : Manager) (tpl c out : text) (exercise_id : pyval) :
  command msg = txt "run_application" ->
  Spec.source Spec.run_application (state m) = true ->
  inline (data msg) ->
  subscript (data msg) (txt "template") = inr (PStr tpl) ->
  subscript (data msg) (txt "exercise_id") = inr exercise_id ->
  subscript (data msg) (txt "code") = inr (PStr c) ->
  lint env (compatible c) exercise_id None = [] ->
  add_frequency_control (compatible c) = inr out ->
  let folder := template_folder m tpl in
  let argv := [txt "python3"; entry_point env m tpl] in
  let steps :=
    [os_path_isfile (folder ++ txt "exercise.py");
     linter_evaluate_code (compatible c) exercise_id None;
     fs_open academy_py (txt "w");
     fs_write academy_py out;
     shutil_copytree folder (txt "/workspace/code");
     subprocess_Popen argv;
     unpause_call m] in
  (forall k, In k steps -> raises env k = None) ->
  handle msg env m =
    Ret tt
      (set_state application_running
         (set_application_process (Some {| args := argv |}) m))
      (steps ++ [state_changed application_running;
                 acknowledged msg application_running]).
Proof.
  intros Hcmd Hsrc Hi Ht Hex Hc He Ha folder argv steps Hok.
  assert (Hrun : on_run_application (data msg) env m =
                 Ret tt (set_application_process (Some {| args := argv |}) m)
                   steps).
  { rewrite (on_run_application_accepted (data msg) env m tpl c exercise_id
               Hi Ht Hex Hc); [|apply Hok; simpl; auto 10 ..|exact He].
    unfold install. rewrite Ha. simpl lift. rewrite bind_ret_left.
    rewrite (bind_ret_run _ _ _ _ _ _ _
               (do_ok _ env m (Hok (fs_open academy_py (txt "w"))
                                 ltac:(simpl; auto 10)))).
    rewrite (bind_ret_run _ _ _ _ _ _ _
               (do_ok _ env m (Hok (fs_write academy_py out)
                                 ltac:(simpl; auto 10)))).
    rewrite (bind_ret_run _ _ _ _ _ _ _
               (do_ok _ env m (Hok (shutil_copytree folder (txt "/workspace/code"))
                                 ltac:(simpl; auto 10)))).
    unfold spawn_application.
    assert (Hp : raises env (subprocess_Popen argv) = None)
      by (apply Hok; simpl; auto 10).
    assert (Hs : (p <- do_ret (subprocess_Popen argv)
                         (fun _ => {| args := argv |}) ;;
                  modify (set_application_process (Some p))) env m
                 = Ret tt (set_application_process (Some {| args := argv |}) m)
                     [subprocess_Popen argv]).
    { rewrite (bind_ret_run _ _ _ _ _ _ _ (do_ret_ok _ _ env m Hp)).
      reflexivity. }
    fold argv. rewrite (bind_ret_run _ _ _ _ _ _ _ Hs).
    unfold unpause_sim. rewrite bind_get.
    assert (Hu : raises env (unpause_call m) = None)
      by (apply Hok; simpl; auto 10).
    change (is_noetic (set_application_process (Some {| args := argv |}) m))
      with (is_noetic m).
    unfold unpause_call, sim_call, call_service in *.
    destruct (is_noetic m); rewrite (do_ok _ env _ Hu); reflexivity. }
  assert (Hg : text_eqb (command msg) (txt "gui") = false)
    by (rewrite Hcmd; reflexivity).
  rewrite (handle_commits msg env m
             (set_state application_running
                (set_application_process (Some {| args := argv |}) m))
             (steps ++ [state_changed application_running]) Hg).
  - rewrite <- app_assoc. reflexivity.
  - rewrite Hcmd, (subscript_truthy _ _ _ Ht).
    rewrite (run_application_fires (data msg) env m Hsrc), Hrun. reflexivity.
Qed.

Definition run_sample_loop : message :=
  {| id := txt "21";
     command := txt "run_application";
     data := PDict [(txt "template", PStr (txt "/templates/follow_line"));
                    (txt "exercise_id", PStr (txt "follow_line"));
                    (txt "code", PStr sample_loop)] |}.

Definition instrumented_sample : text :=
  match add_frequency_control sample_loop with
  | inr out => out
  | inl _ => []
  end.

Lemma run_application_installs_and_starts_witness :
  handle run_sample_loop quiet (in_state visualization_ready) =
    Ret tt
      (set_state application_running
         (set_application_process
            (Some {| args := [txt "python3";
                              entry_point quiet (in_state visualization_ready)
                                (txt "/templates/follow_line")] |})
            (in_state visualization_ready)))
      ([os_path_isfile
          (template_folder (in_state visualization_ready)
             (txt "/templates/follow_line") ++ txt "exercise.py");
        linter_evaluate_code (compatible sample_loop)
          (PStr (txt "follow_line")) None;
        fs_open academy_py (txt "w");
        fs_write academy_py instrumented_sample;
        shutil_copytree
          (template_folder (in_state visualization_ready)
             (txt "/templates/follow_line")) (txt "/workspace/code");
        subprocess_Popen
          [txt "python3";
           entry_point quiet (in_state visualization_ready)
             (txt "/templates/follow_line")];
        unpause_call (in_state visualization_ready)]
       ++ [state_changed application_running;
           acknowledged run_sample_loop application_running]).
Proof.
  apply (run_application_installs_and_starts run_sample_loop quiet
           (in_state visualization_ready) (txt "/templates/follow_line")
           sample_loop instrumented_sample (PStr (txt "follow_line")));
    try reflexivity.
  intros t Ht. vm_compute in Ht. discriminate.
Defined.

(** X19: a [run_application] command with inline code that passes the
    linter but in which the pattern finds no loop header.  The command is
    refused with the [AttributeError] of [None.end()]: nothing is written,
    copied or started, the manager is left as it was, and the loop answers
    with an error that carries the id of the command. *)
Theorem run_application_without_loop_is_refused (msg : message) (env : Env)
    (m : Manager) (tpl c : text) (exercise_id : pyval) :
  command msg = txt "run_application" ->
  Spec.source Spec.run_application (state m) = true ->
  inline (data msg) ->
  subscript (data msg) (txt "template") = inr (PStr tpl) ->
  subscript (data msg) (txt "exercise_id") = inr exercise_id ->
  subscript (data msg) (txt "code") = inr (PStr c) ->
  let probe := os_path_isfile (template_folder m tpl ++ txt "exercise.py") in
  let linted := linter_evaluate_code (compatible c) exercise_id None in
  raises env probe = None ->
  raises env linted = None ->
  lint env (compatible c) exercise_id None = [] ->
  ~ has_loop_header (compatible c) ->
  handle msg env m =
    Ret tt m ([probe; linted] ++ error_response msg none_has_no_end).
Proof.
  intros Hcmd Hsrc Hi Ht Hex Hc probe linted Hp Hl He Hn.
  assert (Hrun : on_run_application (data msg) env m =
                 Raise none_has_no_end m [probe; linted]).
  { rewrite (on_run_application_accepted (data msg) env m tpl c exercise_id
               Hi Ht Hex Hc Hp Hl He).
    unfold install. rewrite (add_frequency_control_no_header _ Hn).
    reflexivity. }
  assert (Hg : text_eqb (command msg) (txt "gui") = false)
    by (rewrite Hcmd; reflexivity).
  apply (handle_reports msg env m m none_has_no_end [probe; linted] Hg).
  rewrite Hcmd, (subscript_truthy _ _ _ Ht).
  now rewrite (run_application_fires (data msg) env m Hsrc), Hrun.
Qed.

Definition run_indented_loop : message :=
  {| id := txt "22";
     command := txt "run_application";
     data := PDict [(txt "template", PStr (txt "/templates/follow_line"));
                    (txt "exercise_id", PStr (txt "follow_line"));
                    (txt "code", PStr indented_loop)] |}.

Lemma no_header_by_search (code : text) :
  search infinite_loop_re (frequency_control_code_imports ++ code) = None ->
  ~ has_loop_header code.
Proof.
  intros Hs (u & t & Hu & Ht). unfold search in Hs. rewrite Hu in Hs.
  revert Hs. now apply search_from_complete.
Qed.

Lemma run_application_without_loop_is_refused_witness :
  handle run_indented_loop quiet (in_state visualization_ready) =
    Ret tt (in_state visualization_ready)
      ([os_path_isfile
          (template_folder (in_state visualization_ready)
             (txt "/templates/follow_line") ++ txt "exercise.py");
        linter_evaluate_code (compatible indented_loop)
          (PStr (txt "follow_line")) None]
       ++ error_response run_indented_loop none_has_no_end).
Proof.
  apply (run_application_without_loop_is_refused run_indented_loop quiet
           (in_state visualization_ready) (txt "/templates/follow_line")
           indented_loop (PStr (txt "follow_line")));
    try reflexivity.
  - intros t Ht. vm_compute in Ht. discriminate.
  - apply no_header_by_search. vm_compute. reflexivity.
Defined.

(** ** The world launcher *)

(** The end of [on_launch_world], for a bound [cfg]. *)
Definition launch (c : pyval) : M unit :=
  w <- do_ret (LauncherWorld_new c) (fun _ => {| world_config := c |}) ;;
  modify (set_world_launcher (Some w)) ;;
  do (LauncherWorld_run w).

Lemma launch_records (c : pyval) (env : Env) (m : Manager) :
  raises env (LauncherWorld_new c) = None ->
  let w := {| world_config := c |} in
  launch c env m =
    match raises env (LauncherWorld_run w) with
    | None =>
        Ret tt (set_world_launcher (Some w) m)
          [LauncherWorld_new c; LauncherWorld_run w]
    | Some e =>
        Raise e (set_world_launcher (Some w) m)
          [LauncherWorld_new c; LauncherWorld_run w]
    end.
Proof.
  intros Hn w. unfold launch.
  rewrite (bind_ret_run _ _ _ _ _ _ _ (do_ret_ok _ _ env m Hn)).
  fold w. unfold bind, modify, do.
  destruct (raises env (LauncherWorld_run w)); reflexivity.
Qed.

Lemma launch_world_lookup (s : State) :
  s = connected ->
  transitions_from transitions (txt "launch_world") s = [launch_row].
Proof. intros ->. vm_compute. reflexivity. Qed.

Lemma launch_world_fires (d : pyval) (env : Env) (m : Manager) :
  state m = connected ->
  trigger_ (txt "launch_world") d env m =
    match on_launch_world d env m with
    | Ret _ m' tr =>
        Ret tt (set_state world_ready m') (tr ++ [state_changed world_ready])
    | Raise e m' tr => Raise e m' tr
    | Exec tr => Exec tr
    end.
Proof.
  intros Hs.
  rewrite (fire_executes (txt "launch_world") d env m launch_row []
             ltac:(vm_compute; reflexivity)
             (launch_world_lookup (state m) Hs)).
  change (callbacks method (before launch_row) d env m)
    with ((on_launch_world d ;; ret tt) env m).
  unfold bind at 1.
  destruct (on_launch_world d env m) as [[] m' tr|e m' tr|tr];
    [|reflexivity|reflexivity].
  change (after tr (ret tt env m')) with (Ret tt m' (tr ++ [])).
  change (dest launch_row) with (Some (state_name world_ready)).
  cbv iota. rewrite app_nil_r.
  now rewrite (commit_registered (state m) world_ready m' env).
Qed.

(** X20: a [launch_world] command for a world of the image (no [zip] in
    the payload) that the validator accepts.  The launcher is built from
    the validated configuration and recorded before it is run: when
    [run] goes through, the state becomes [world_ready] and the command is
    acknowledged; when [run] raises, the command is answered with that
    error and the state is unchanged, and the launcher that failed to
    start stays recorded in [world_launcher]. *)
Theorem launch_world_records_the_launcher (msg : message) (env : Env)
    (m : Manager) :
  command msg = txt "launch_world" ->
  state m = connected ->
  truthy (data msg) = true ->
  py_in (txt "zip") (data msg) = inr false ->
  raises env (ConfigurationManager_validate (data msg)) = None ->
  let c := validated env (data msg) in
  let w := {| world_config := c |} in
  raises env (LauncherWorld_new c) = None ->
  let steps := [ConfigurationManager_validate (data msg);
                LauncherWorld_new c; LauncherWorld_run w] in
  handle msg env m =
    match raises env (LauncherWorld_run w) with
    | None =>
        Ret tt (set_state world_ready (set_world_launcher (Some w) m))
          (steps ++ [state_changed world_ready; acknowledged msg world_ready])
    | Some e =>
        Ret tt (set_world_launcher (Some w) m) (steps ++ error_response msg e)
    end.
Proof.
  intros Hcmd Hs Htr Hz Hv c w Hn steps.
  assert (Hrun : on_launch_world (data msg) env m =
                 after [ConfigurationManager_validate (data msg)]
                   (launch c env m)).
  { unfold on_launch_world.
    assert (Hcfg : try_except
              (cfg <- do_ret (ConfigurationManager_validate (data msg))
                        (fun env => validated env (data msg)) ;;
               try_except
                 (z <- lift (py_in (txt "zip") (data msg)) ;;
                  (if z then prepare_custom_universe (data msg) else ret tt) ;;
                  ret (Some cfg))
                 (validation_failed (Some cfg)))
              (validation_failed None) env m
            = Ret (Some c) m [ConfigurationManager_validate (data msg)]).
    { unfold try_except at 1.
      rewrite (bind_ret_run _ _ _ _ _ _ _ (do_ret_ok _ _ env m Hv)).
      unfold try_except. rewrite Hz. simpl lift.
      rewrite !bind_ret_left. reflexivity. }
    rewrite (bind_ret_run _ _ _ _ _ _ _ Hcfg). reflexivity. }
  rewrite (launch_records c env m Hn) in Hrun. fold w in Hrun.
  assert (Hg : text_eqb (command msg) (txt "gui") = false)
    by (rewrite Hcmd; reflexivity).
  destruct (raises env (LauncherWorld_run w)) as [e|].
  - apply (handle_reports msg env m _ e steps Hg).
    rewrite Hcmd, Htr, (launch_world_fires (data msg) env m Hs), Hrun.
    reflexivity.
  - rewrite (handle_commits msg env m
               (set_state world_ready (set_world_launcher (Some w) m))
               (steps ++ [state_changed world_ready]) Hg).
    + rewrite <- app_assoc. reflexivity.
    + rewrite Hcmd, Htr, (launch_world_fires (data msg) env m Hs), Hrun.
      reflexivity.
Qed.

Definition simple_world : pyval :=
  PDict [(txt "name", PStr (txt "simple_circuit"));
         (txt "launch_file_path", PStr (txt "/opt/jderobot/simple_circuit.launch.py"))].

Definition launch_simple_world : message :=
  {| id := txt "31"; command := txt "launch_world"; data := simple_world |}.

(** Collaborators whose world launcher fails to start. *)
Definition stalling : Env :=
  {| raises := fun c =>
       match c with
       | LauncherWorld_run _ => Some (OSError (txt "gzserver not found"))
       | _ => None
       end;
     validated := validated quiet;
     decoded := decoded quiet;
     path_exists := path_exists quiet;
     path_isfile := path_isfile quiet;
     listdir := listdir quiet;
     lint := lint quiet;
     image_tag := image_tag quiet;
     gpu := gpu quiet;
     current_client := current_client quiet |}.

Lemma launch_world_records_the_launcher_witness :
  handle launch_simple_world stalling (in_state connected) =
    Ret tt
      (set_world_launcher
         (Some {| world_config := validated stalling simple_world |})
         (in_state connected))
      ([ConfigurationManager_validate simple_world;
        LauncherWorld_new (validated stalling simple_world);
        LauncherWorld_run {| world_config := validated stalling simple_world |}]
       ++ error_response launch_simple_world (OSError (txt "gzserver not found"))).
Proof.
  apply (launch_world_records_the_launcher launch_simple_world stalling
           (in_state connected)); reflexivity.
Defined.

(** X21: an error of the class [ValueError] raised while the archive of
    a custom world is unpacked, after the validator has accepted the
    payload, is caught by the same [except ValueError]: it is logged as a
    failed validation and, [cfg] being bound, the launcher is built and
    run all the same. *)
Theorem unpack_error_is_logged_as_validation_failure (d : pyval) (env : Env)
    (m m' : Manager) (reason : text) (tr : trace) :
  raises env (ConfigurationManager_validate d) = None ->
  py_in (txt "zip") d = inr true ->
  prepare_custom_universe d env m = Raise (ValueError reason) m' tr ->
  let c := validated env d in
  let w := {| world_config := c |} in
  raises env (LauncherWorld_new c) = None ->
  raises env (LauncherWorld_run w) = None ->
  on_launch_world d env m =
    Ret tt (set_world_launcher (Some w) m')
      ([ConfigurationManager_validate d] ++ tr
       ++ [log_error (txt "Configuration validation failed: " ++ reason);
           LauncherWorld_new c; LauncherWorld_run w]).
Proof.
  intros Hv Hz Hp c w Hn Hr.
  unfold on_launch_world.
  assert (Hcfg : try_except
            (cfg <- do_ret (ConfigurationManager_validate d)
                      (fun env => validated env d) ;;
             try_except
               (z <- lift (py_in (txt "zip") d) ;;
                (if z then prepare_custom_universe d else ret tt) ;;
                ret (Some cfg))
               (validation_failed (Some cfg)))
            (validation_failed None) env m
          = Ret (Some c) m'
              ([ConfigurationManager_validate d] ++ tr
               ++ [log_error (txt "Configuration validation failed: " ++ reason)])).
  { unfold try_except at 1.
    rewrite (bind_ret_run _ _ _ _ _ _ _ (do_ret_ok _ _ env m Hv)).
    unfold try_except. rewrite Hz. simpl lift. rewrite bind_ret_left.
    rewrite (bind_raise_run _ _ _ _ _ _ _ Hp).
    unfold validation_failed. simpl is_ValueError. cbv iota.
    unfold bind, emit, ret. simpl. reflexivity. }
  rewrite (bind_ret_run _ _ _ _ _ _ _ Hcfg).
  fold (launch c). rewrite (launch_records c env m' Hn). fold w. rewrite Hr.
  simpl after. now rewrite <- !app_assoc.
Qed.

(** Collaborators whose base64 decoder rejects the padding
    ([binascii.Error] is a [ValueError]). *)
Definition padding : Env :=
  {| raises := fun c =>
       match c with
       | base64_b64decode _ => Some (ValueError (txt "Incorrect padding"))
       | _ => None
       end;
     validated := validated quiet;
     decoded := decoded quiet;
     path_exists := path_exists quiet;
     path_isfile := path_isfile quiet;
     listdir := listdir quiet;
     lint := lint quiet;
     image_tag := image_tag quiet;
     gpu := gpu quiet;
     current_client := current_client quiet |}.

Lemma unpack_error_is_logged_as_validation_failure_witness :
  on_launch_world arena_zip padding (in_state connected) =
    Ret tt
      (set_world_launcher
         (Some {| world_config := validated padding arena_zip |})
         (in_state connected))
      ([ConfigurationManager_validate arena_zip]
       ++ [fs_open (txt "/workspace/worlds/arena.zip") (txt "wb");
           base64_b64decode (txt "UEsDBBQAAAAI")]
       ++ [log_error (txt "Configuration validation failed: "
                        ++ txt "Incorrect padding");
           LauncherWorld_new (validated padding arena_zip);
           LauncherWorld_run
             {| world_config := validated padding arena_zip |}]).
Proof.
  apply (unpack_error_is_logged_as_validation_failure arena_zip padding
           (in_state connected) (in_state connected)
           (txt "Incorrect padding")); reflexivity.
Defined.
